(** * GeneratePrompt.py: the directory walk and the prompt assembly

    A shallow embedding of [src/GeneratePrompt.py].  Python strings are
    [string]s (the bytes of their UTF-8 encoding: splitting at '/', suffix
    tests, equality and the lexicographic order agree on code points and on
    UTF-8 bytes), the operating system is a record of the functions the
    program calls ([os.listdir], [os.path.isdir], [os.path.exists], reading a
    file, [os.getcwd]), and Python exceptions are the [Raise] results of a
    small error monad.  Paths follow [posixpath] ([os.sep] is "/"). *)

From Stdlib Require Import String Ascii List Bool Arith NArith Lia.
From Stdlib Require Import Permutation Sorted Mergesort Orders.
Import ListNotations.
Local Open Scope list_scope.
Local Open Scope string_scope.

(** ** Python exceptions and results *)

Inductive exn_class : Type :=
| NotADirectoryError
| PermissionError
| FileNotFoundError
| IsADirectoryError
| UnicodeDecodeError
| ValueError
| RecursionError
| OSError.

(** An exception object: its class and [str(e)]. *)
Record exn : Type := mkExn { exn_type : exn_class; exn_str : string }.

Inductive result (A : Type) : Type :=
| Ok (a : A)
| Raise (e : exn).
Arguments Ok {A} a.
Arguments Raise {A} e.

Definition bind {A B : Type} (m : result A) (k : A -> result B) : result B :=
  match m with
  | Ok a => k a
  | Raise e => Raise e
  end.

Notation "x <- m ;; k" := (bind m (fun x => k))
  (at level 61, m at next level, right associativity).
Notation "' p <- m ;; k" := (bind m (fun p => k))
  (at level 61, p pattern, m at next level, right associativity).

(** ** Python string operations *)

Module Str.

(** [s.startswith(p)] *)
Definition startswith (s p : string) : bool := String.prefix p s.

(** [s.endswith(suffix)]: [s] is [suffix], or its tail ends with it. *)
Fixpoint endswith (s suffix : string) : bool :=
  (s =? suffix) ||
  match s with
  | EmptyString => false
  | String _ s' => endswith s' suffix
  end.

(** [s.endswith(t)] for a tuple [t] of suffixes. *)
Definition endswith_any (s : string) (suffixes : list string) : bool :=
  existsb (endswith s) suffixes.

(** [s.split(sep)] for a one-character separator: never empty, one more
    piece than there are separators. *)
Fixpoint split (sep : ascii) (s : string) : list string :=
  match s with
  | EmptyString => [EmptyString]
  | String c s' =>
      if Ascii.eqb c sep then EmptyString :: split sep s'
      else match split sep s' with
           | [] => [String c EmptyString]
           | piece :: pieces => String c piece :: pieces
           end
  end.

(** [s.lower()] on ASCII letters.  On other characters Python's [lower]
    yields no 't', 'e', 's' and no '/', which is all the program asks of
    it. *)
Definition lower_ascii (c : ascii) : ascii :=
  let n := nat_of_ascii c in
  if ((65 <=? n)%nat && (n <=? 90)%nat)%bool then ascii_of_nat (n + 32) else c.

Fixpoint lower (s : string) : string :=
  match s with
  | EmptyString => EmptyString
  | String c s' => String (lower_ascii c) (lower s')
  end.

(** [s * n] *)
Fixpoint times (s : string) (n : nat) : string :=
  match n with
  | 0 => EmptyString
  | S n' => s ++ times s n'
  end.

(** [x in l] for a list or set of strings. *)
Definition mem (x : string) (l : list string) : bool :=
  existsb (String.eqb x) l.

(** ["".join(l)] *)
Definition join_all (l : list string) : string := String.concat "" l.

End Str.

(** ** posixpath *)

Module PosixPath.

Definition sep : ascii := "/"%char.

Definition isabs (p : string) : bool := Str.startswith p "/".

(** [os.path.join(a, b)] *)
Definition join (a b : string) : string :=
  if Str.startswith b "/" then b
  else if (a =? "") || Str.endswith a "/" then a ++ b
  else a ++ "/" ++ b.

(** [os.path.join(a, *p)] *)
Definition join_list (a : string) (p : list string) : string :=
  fold_left join p a.

Definition normpath_step (initial_slashes : nat)
           (new_comps : list string) (comp : string) : list string :=
  if (comp =? "") || (comp =? ".") then new_comps
  else if negb (comp =? "..")
          || ((initial_slashes =? 0)%nat && (length new_comps =? 0)%nat)
          || (negb (length new_comps =? 0)%nat
              && (last new_comps "" =? ".."))
       then (new_comps ++ [comp])%list
  else removelast new_comps.

(** POSIX allows one or two initial slashes, and treats three or more as
    one. *)
Definition initial_slashes (path : string) : nat :=
  if Str.startswith path "/" then
    if Str.startswith path "//" && negb (Str.startswith path "///")
    then 2 else 1
  else 0.

(** [os.path.normpath(path)] *)
Definition normpath (path : string) : string :=
  if path =? "" then "."
  else
    let initial_slashes := initial_slashes path in
    let comps := Str.split sep path in
    let new_comps := fold_left (normpath_step initial_slashes) comps [] in
    let path := Str.times "/" initial_slashes ++ String.concat "/" new_comps in
    if path =? "" then "." else path.

(** [os.path.abspath(path)], with [cwd] for [os.getcwd()]. *)
Definition abspath (cwd path : string) : string :=
  normpath (if isabs path then path else join cwd path).

Fixpoint common_prefix_length (l1 l2 : list string) : nat :=
  match l1, l2 with
  | x :: l1', y :: l2' =>
      if x =? y then S (common_prefix_length l1' l2') else 0
  | _, _ => 0
  end.

Definition nonempty (s : string) : bool := negb (s =? "").

(** [os.path.relpath(path, start)] *)
Definition relpath (cwd path start : string) : result string :=
  if path =? "" then Raise (mkExn ValueError "no path specified")
  else
    let start_list := filter nonempty (Str.split sep (abspath cwd start)) in
    let path_list := filter nonempty (Str.split sep (abspath cwd path)) in
    let i := common_prefix_length start_list path_list in
    let rel_list :=
      (repeat ".." (length start_list - i) ++ skipn i path_list)%list in
    match rel_list with
    | [] => Ok "."
    | first :: others => Ok (join_list first others)
    end.

End PosixPath.

(** ** The operating system the program runs on *)

Record OS : Type := {
  (** [os.listdir(path)]: the names in any order, or the exception raised *)
  listdir : string -> result (list string);
  (** [os.path.isdir(path)] *)
  isdir : string -> bool;
  (** [os.path.exists(path)] *)
  path_exists : string -> bool;
  (** [open(path, 'r', encoding='utf-8').read()] *)
  read_text : string -> result string;
  (** [os.getcwd()] *)
  getcwd : string;
  (** how many nested calls of the walk the interpreter's recursion limit
      leaves room for; one call more raises RecursionError *)
  recursion_limit : nat
}.

(** ** The program's constants *)

Definition IGNORE_PATTERNS : list string :=
  ["target"; ".git"; ".github"; ".idea"; "node_modules"; ".m2";
   "__pycache__"; "build"; "dist"; "out"].

Definition RELEVANT_ENDINGS : list string :=
  [".java"; ".jsp"; ".kt"; ".groovy"; ".js"; ".jsx";
   ".xml"; ".properties"; ".yml"; ".yaml"; ".json"; ".toml";
   ".gradle"; ".mvn"; ".gitignore"; ".md";
   ".md"; ".adoc"; ".rst"].

Definition SPECIAL_BUILD_FILES : list string :=
  ["pom.xml"; "build.gradle"; "settings.gradle"; "Dockerfile";
   "docker-compose.yml"; "docker-compose.yaml"].

(** The third component of a record: "BUILD_CONFIG", "TEST" or "SOURCE". *)
Inductive Kind : Type := BUILD_CONFIG | TEST | SOURCE.

Definition Kind_eqb (a b : Kind) : bool :=
  match a, b with
  | BUILD_CONFIG, BUILD_CONFIG | TEST, TEST | SOURCE, SOURCE => true
  | _, _ => false
  end.

(** An element of [file_paths]: [(indent, full_path, kind)]. *)
Definition FileRecord : Type := (nat * string * Kind)%type.

(** [entries.sort()]: the lexicographic order of strings. *)
Module StringOrder <: TotalLeBool.
Definition t := string.
Definition leb := String.leb.
Definition leb_total : forall a b, leb a b = true \/ leb b a = true :=
  String.leb_total.
End StringOrder.

Module StringSort := Sort StringOrder.

Definition INDENT : string := "    ".

(** The newline character, "\n". *)
Definition NL : string := String (ascii_of_nat 10) EmptyString.

(** ** build_directory_tree_local *)

(** Line 67: does a segment of the path belong to IGNORE_PATTERNS? *)
Definition should_ignore (full_path : string) : bool :=
  existsb (fun pattern => Str.mem pattern (Str.split PosixPath.sep full_path))
          IGNORE_PATTERNS.

(** Lines 81-91: the record a file entry adds, if any. *)
Definition classify (entry full_path : string) : option Kind :=
  if Str.mem entry SPECIAL_BUILD_FILES then Some BUILD_CONFIG
  else if Str.endswith_any entry RELEVANT_ENDINGS then
    if Str.mem "test" (Str.split PosixPath.sep (Str.lower full_path))
    then Some TEST
    else Some SOURCE
  else None.

Section Walk.

Variable os : OS.

(** The handler of lines 57-60. *)
Definition listing_error_caught (e : exn) : bool :=
  match exn_type e with
  | NotADirectoryError | PermissionError => true
  | _ => false
  end.

(** The body of the [for entry in entries] loop, lines 63-91, over the
    entries still to visit; [recurse] is the recursive call of line 73. *)
Fixpoint walk_entries
         (recurse : string -> nat -> list FileRecord ->
                    result (string * list FileRecord))
         (base_path : string) (indent : nat) (entries : list string)
         (tree_str : string) (file_paths : list FileRecord)
  : result (string * list FileRecord) :=
  match entries with
  | [] => Ok (tree_str, file_paths)
  | entry :: entries' =>
      let full_path := PosixPath.join base_path entry in
      if should_ignore full_path then
        walk_entries recurse base_path indent entries' tree_str file_paths
      else if isdir os full_path then
        let tree_str :=
          tree_str ++ Str.times INDENT indent ++ "[" ++ entry ++ "/]" ++ NL in
        '(subtree_str, file_paths) <- recurse full_path (S indent) file_paths ;;
        walk_entries recurse base_path indent entries'
                     (tree_str ++ subtree_str) file_paths
      else
        let tree_str :=
          tree_str ++ Str.times INDENT indent ++ entry ++ NL in
        match classify entry full_path with
        | Some kind =>
            walk_entries recurse base_path indent entries' tree_str
                         (file_paths ++ [(indent, full_path, kind)])%list
        | None =>
            walk_entries recurse base_path indent entries' tree_str file_paths
        end
  end.

(** [build_directory_tree_local] with [frames] nested calls left. *)
Fixpoint walk (frames : nat) (base_path : string) (indent : nat)
         (file_paths : list FileRecord)
  : result (string * list FileRecord) :=
  match frames with
  | 0 => Raise (mkExn RecursionError "maximum recursion depth exceeded")
  | S frames' =>
      match listdir os base_path with
      | Raise e =>
          if listing_error_caught e then Ok ("", file_paths) else Raise e
      | Ok entries =>
          walk_entries (walk frames') base_path indent
                       (StringSort.sort entries) "" file_paths
      end
  end.

Definition build_directory_tree_local
           (base_path : string) (indent : nat) (file_paths : list FileRecord)
  : result (string * list FileRecord) :=
  walk (recursion_limit os) base_path indent file_paths.

End Walk.

(** ** get_local_file_content and retrieve_local_repo_info *)

Definition FENCE : string := "```".

Section Assemble.

Variable os : OS.

(** Lines 96-106: [except UnicodeDecodeError], then [except Exception]. *)
Definition get_local_file_content (file_path : string) : result string :=
  match read_text os file_path with
  | Ok text => Ok text
  | Raise e =>
      match exn_type e with
      | UnicodeDecodeError =>
          Ok "Binary or non-UTF8 file, cannot display text content."
      | _ => Ok ("Error reading file: " ++ exn_str e)
      end
  end.

(** Lines 116-121: the loop over the README names.  It returns the loop
    variable [possible_readme] as the loop leaves it, and
    [readme_content]. *)
Fixpoint find_readme (base_path : string) (names : list string)
         (possible_readme : string) : result (string * option string) :=
  match names with
  | [] => Ok (possible_readme, None)
  | name :: names' =>
      let readme_path := PosixPath.join base_path name in
      if path_exists os readme_path then
        readme_content <- get_local_file_content readme_path ;;
        Ok (name, Some readme_content)
      else find_readme base_path names' name
  end.

(** [if readme_content:] is false on [None] and on the empty string. *)
Definition truthy (readme_content : option string) : bool :=
  match readme_content with
  | None => false
  | Some content => negb (content =? "")
  end.

(** Lines 123-126. *)
Definition readme_block (base_path : string) : result string :=
  '(possible_readme, readme_content) <-
     find_readme base_path ["README.md"; "README.MD"] "" ;;
  if truthy readme_content then
    match readme_content with
    | Some content =>
        Ok (possible_readme ++ ":" ++ NL ++ FENCE ++ NL
              ++ content ++ NL ++ FENCE ++ NL ++ NL)
    | None => Ok ("README.md: Not found!" ++ NL ++ NL)
    end
  else Ok ("README.md: Not found!" ++ NL ++ NL).

(** Lines 141-144. *)
Definition make_snippet (indent : nat) (relative_path file_content : string)
  : string :=
  NL ++ Str.times INDENT indent ++ relative_path ++ ":" ++ NL
     ++ Str.times INDENT indent ++ FENCE ++ NL ++ file_content ++ NL
     ++ Str.times INDENT indent ++ FENCE ++ NL.

(** Lines 138-151: the loop over [file_paths], appending each snippet to
    one of the three sections. *)
Fixpoint collect_sections (base_path : string) (file_paths : list FileRecord)
         (build_section source_section test_section : list string)
  : result (list string * list string * list string) :=
  match file_paths with
  | [] => Ok (build_section, source_section, test_section)
  | (indent, path, kind) :: file_paths' =>
      file_content <- get_local_file_content path ;;
      relative_path <- PosixPath.relpath (getcwd os) path base_path ;;
      let snippet := make_snippet indent relative_path file_content in
      match kind with
      | BUILD_CONFIG =>
          collect_sections base_path file_paths'
                           (build_section ++ [snippet])%list
                           source_section test_section
      | TEST =>
          collect_sections base_path file_paths' build_section
                           source_section (test_section ++ [snippet])%list
      | SOURCE =>
          collect_sections base_path file_paths' build_section
                           (source_section ++ [snippet])%list test_section
      end
  end.

(** Lines 154-164: [if section: formatted_string += header + join]. *)
Definition emit_section (formatted_string header : string)
           (section : list string) : string :=
  match section with
  | [] => formatted_string
  | _ :: _ => formatted_string ++ header ++ Str.join_all section
  end.

Definition BUILD_HEADER : string := NL ++ "=== Build & Config Files ===" ++ NL.
Definition SOURCE_HEADER : string := NL ++ "=== Source Files ===" ++ NL.
Definition TEST_HEADER : string := NL ++ "=== Test Files ===" ++ NL.

(** Lines 109-166. *)
Definition retrieve_local_repo_info (base_path : string) : result string :=
  formatted_string <- readme_block base_path ;;
  '(directory_tree, file_paths) <-
     build_directory_tree_local os base_path 0 [] ;;
  let formatted_string :=
    formatted_string ++ "Directory Structure:" ++ NL ++ directory_tree ++ NL in
  '(build_section, source_section, test_section) <-
     collect_sections base_path file_paths [] [] [] ;;
  let formatted_string :=
    emit_section formatted_string BUILD_HEADER build_section in
  let formatted_string :=
    emit_section formatted_string SOURCE_HEADER source_section in
  let formatted_string :=
    emit_section formatted_string TEST_HEADER test_section in
  Ok formatted_string.

End Assemble.

(** ** A sample project

    README.md ("Hi"), an ignored target/ with a Java file in it, pom.xml,
    src/Main.java and src/test/FooTest.java, scanned from "proj". *)

Module Sample.

Definition dirs : list (string * list string) :=
  [("proj", ["target"; "src"; "pom.xml"; "README.md"; "notes.txt"]);
   ("proj/target", ["Gen.java"]);
   ("proj/src", ["test"; "Main.java"]);
   ("proj/src/test", ["FooTest.java"])].

Definition files : list (string * string) :=
  [("proj/README.md", "Hi");
   ("proj/pom.xml", "<project/>");
   ("proj/notes.txt", "todo");
   ("proj/target/Gen.java", "class Gen {}");
   ("proj/src/Main.java", "class Main {}");
   ("proj/src/test/FooTest.java", "class FooTest {}")].

Fixpoint assoc {A : Type} (key : string) (l : list (string * A)) : option A :=
  match l with
  | [] => None
  | (k, v) :: l' => if k =? key then Some v else assoc key l'
  end.

Definition no_such (path : string) : exn :=
  mkExn FileNotFoundError ("[Errno 2] No such file or directory: '" ++ path ++ "'").

Definition make_os (dirs : list (string * list string))
           (files : list (string * string)) : OS :=
  {| listdir path :=
       match assoc path dirs with
       | Some names => Ok names
       | None =>
           match assoc path files with
           | Some _ => Raise (mkExn NotADirectoryError
                                    ("[Errno 20] Not a directory: '" ++ path ++ "'"))
           | None => Raise (no_such path)
           end
       end;
     isdir path := match assoc path dirs with Some _ => true | None => false end;
     path_exists path :=
       match assoc path dirs, assoc path files with
       | None, None => false
       | _, _ => true
       end;
     read_text path :=
       match assoc path files with
       | Some text => Ok text
       | None =>
           match assoc path dirs with
           | Some _ => Raise (mkExn IsADirectoryError
                                    ("[Errno 21] Is a directory: '" ++ path ++ "'"))
           | None => Raise (no_such path)
           end
       end;
     getcwd := "/home/user";
     recursion_limit := 1000 |}.

Definition os : OS := make_os dirs files.

End Sample.

(** * What the walk should visit and return *)

(** The line of the tree for an entry at indent [d]: lines 72 and 76. *)
Definition entry_line (d : nat) (entry : string) (is_dir : bool) : string :=
  if is_dir then Str.times INDENT d ++ "[" ++ entry ++ "/]" ++ NL
  else Str.times INDENT d ++ entry ++ NL.

Section Reach.

Variable os : OS.

(** [reaches base i dir d]: the walk begun at [base] with indent [i]
    goes down, through listed directories that are not ignored, to
    [dir], with indent [d]. *)
Inductive reaches : string -> nat -> string -> nat -> Prop :=
| reaches_here base i : reaches base i base i
| reaches_down base i names entry dir d :
    listdir os base = Ok names ->
    In entry names ->
    should_ignore (PosixPath.join base entry) = false ->
    isdir os (PosixPath.join base entry) = true ->
    reaches (PosixPath.join base entry) (S i) dir d ->
    reaches base i dir d.

(** [entry] is listed in a directory the walk reaches and is not
    ignored. *)
Definition visits (base : string) (i : nat) (dir : string) (d : nat)
           (entry : string) : Prop :=
  reaches base i dir d /\
  exists names, listdir os dir = Ok names /\ In entry names
                /\ should_ignore (PosixPath.join dir entry) = false.

Definition line_of (base : string) (i : nat) (l : string) : Prop :=
  exists dir d entry,
    visits base i dir d entry
    /\ l = entry_line d entry (isdir os (PosixPath.join dir entry)).

Definition record_of (base : string) (i : nat) (r : FileRecord) : Prop :=
  exists dir d entry kind,
    visits base i dir d entry
    /\ isdir os (PosixPath.join dir entry) = false
    /\ classify entry (PosixPath.join dir entry) = Some kind
    /\ r = (d, PosixPath.join dir entry, kind).


(** What a call returns, given what [file_paths] held: the tree is the
    lines of the visited entries, and the records of the visited
    relevant files are appended. *)
Definition walk_returns (base : string) (i : nat) (file_paths : list FileRecord)
           (res : string * list FileRecord) : Prop :=
  exists lines new,
    fst res = Str.join_all lines
    /\ snd res = (file_paths ++ new)%list
    /\ (forall l, In l lines <-> line_of base i l)
    /\ (forall r, In r new <-> record_of base i r).

Definition entries_lines (base : string) (i : nat) (entries : list string)
           (l : string) : Prop :=
  exists entry,
    In entry entries /\ should_ignore (PosixPath.join base entry) = false
    /\ (l = entry_line i entry (isdir os (PosixPath.join base entry))
        \/ (isdir os (PosixPath.join base entry) = true
            /\ line_of (PosixPath.join base entry) (S i) l)).

Definition entries_records (base : string) (i : nat) (entries : list string)
           (r : FileRecord) : Prop :=
  exists entry,
    In entry entries /\ should_ignore (PosixPath.join base entry) = false
    /\ ((isdir os (PosixPath.join base entry) = false
         /\ exists kind, classify entry (PosixPath.join base entry) = Some kind
                         /\ r = (i, PosixPath.join base entry, kind))
        \/ (isdir os (PosixPath.join base entry) = true
            /\ record_of (PosixPath.join base entry) (S i) r)).

(** Every directory the walk reaches lies within the recursion limit, and
    its listing either succeeds or fails in one of the two ways line 59
    catches. *)
Definition safe (base : string) (i frames : nat) : Prop :=
  forall dir d,
    reaches base i dir d ->
    d < i + frames
    /\ forall e, listdir os dir = Raise e -> listing_error_caught e = true.

(** The same, decided by going down the tree. *)
Fixpoint scannable (frames : nat) (base : string) : bool :=
  match frames with
  | 0 => false
  | S frames' =>
      match listdir os base with
      | Raise e => listing_error_caught e
      | Ok names =>
          forallb (fun entry =>
                     let full_path := PosixPath.join base entry in
                     should_ignore full_path || negb (isdir os full_path)
                     || scannable frames' full_path)
                  names
      end
  end.

End Reach.

(** ** The names a listing holds *)

(** The character occurs in the string. *)
Fixpoint has_char (c : ascii) (s : string) : bool :=
  match s with
  | EmptyString => false
  | String c' s' => Ascii.eqb c' c || has_char c s'
  end.

(** What [os.listdir] returns: a name is not empty, is neither "." nor
    "..", and holds no "/". *)
Definition valid_name (entry : string) : bool :=
  negb (entry =? "") && negb (entry =? ".") && negb (entry =? "..")
  && negb (has_char PosixPath.sep entry).

(** What [normpath] keeps of a path: components that are not empty and hold
    no "/". *)
Definition component (c : string) : Prop :=
  c <> "" /\ has_char PosixPath.sep c = false.

Definition valid_names (os : OS) : Prop :=
  forall path names entry,
    listdir os path = Ok names -> In entry names -> valid_name entry = true.

(** ** Two systems the walk cannot tell apart *)

(** The entries of a listing of [base] that line 67 does not skip. *)
Definition kept (base : string) (names : list string) : list string :=
  filter (fun entry => negb (should_ignore (PosixPath.join base entry))) names.

(** Two outcomes of [os.listdir(base)] that raise the same exception or
    list, in any order, the same entries apart from ignored ones. *)
Definition same_listing (base : string) (r1 r2 : result (list string)) : Prop :=
  match r1, r2 with
  | Ok names1, Ok names2 => Permutation (kept base names1) (kept base names2)
  | Raise e1, Raise e2 => e1 = e2
  | _, _ => False
  end.

(** Two systems that agree on the root and on every path that is not
    ignored. *)
Definition same_unless_ignored (os1 os2 : OS) (base : string) : Prop :=
  same_listing base (listdir os1 base) (listdir os2 base)
  /\ forall path,
      should_ignore path = false ->
      isdir os1 path = isdir os2 path
      /\ same_listing path (listdir os1 path) (listdir os2 path).

(** Two outcomes of [os.listdir] that differ in the order of the names
    only. *)
Definition same_names (r1 r2 : result (list string)) : Prop :=
  match r1, r2 with
  | Ok names1, Ok names2 => Permutation names1 names2
  | Raise e1, Raise e2 => e1 = e2
  | _, _ => False
  end.

(** The system [os] with each listing rearranged by [f]. *)
Definition relisted (f : list string -> list string) (os : OS) : OS :=
  {| listdir path :=
       match listdir os path with
       | Ok names => Ok (f names)
       | Raise e => Raise e
       end;
     isdir := isdir os;
     path_exists := path_exists os;
     read_text := read_text os;
     getcwd := getcwd os;
     recursion_limit := recursion_limit os |}.

(** The system [os] with the ignored entries taken out of each listing. *)
Definition pruned (os : OS) : OS :=
  {| listdir path :=
       match listdir os path with
       | Ok names => Ok (kept path names)
       | Raise e => Raise e
       end;
     isdir := isdir os;
     path_exists := path_exists os;
     read_text := read_text os;
     getcwd := getcwd os;
     recursion_limit := recursion_limit os |}.

(** ** The rule of the Path Filter, as the specification words it *)

(** A file is relevant iff its name is a special file name or ends with a
    recognized suffix. *)
Definition is_relevant (filename : string) : bool :=
  Str.mem filename SPECIAL_BUILD_FILES
  || Str.endswith_any filename RELEVANT_ENDINGS.

(** Some segment of the path equals "test", whatever its case. *)
Definition has_test_segment (path : string) : bool :=
  existsb (fun seg => Str.lower seg =? "test") (Str.split PosixPath.sep path).

(** BUILD_CONFIG for a special file name; otherwise TEST below a "test"
    segment; otherwise SOURCE. *)
Definition classification (filename path : string) : Kind :=
  if Str.mem filename SPECIAL_BUILD_FILES then BUILD_CONFIG
  else if has_test_segment path then TEST
  else SOURCE.

(** [line] stands in [tree] at the beginning of a line. *)
Definition tree_has_line (tree line : string) : Prop :=
  exists before after,
    tree = before ++ line ++ after
    /\ (before = "" \/ Str.endswith before NL = true).

(** [before] ends where a line begins. *)
Definition at_line_start (before : string) : Prop :=
  before = "" \/ Str.endswith before NL = true.

(** ** The Document Assembler, as the specification words it *)

(** The snippet of one record: its content loaded, its path made relative
    to the root. *)
Definition render_record (os : OS) (base_path : string) (r : FileRecord)
  : result string :=
  let '(indent, path, _) := r in
  file_content <- get_local_file_content os path ;;
  relative_path <- PosixPath.relpath (getcwd os) path base_path ;;
  Ok (make_snippet indent relative_path file_content).

(** The snippets of the records, in discovery order, each with the
    classification of its record. *)
Fixpoint render_all (os : OS) (base_path : string) (records : list FileRecord)
  : result (list (Kind * string)) :=
  match records with
  | [] => Ok []
  | r :: records' =>
      snippet <- render_record os base_path r ;;
      rest <- render_all os base_path records' ;;
      Ok ((snd r, snippet) :: rest)
  end.

(** The snippets of one classification, in the order they have. *)
Definition group (kind : Kind) (snippets : list (Kind * string)) : list string :=
  map snd (filter (fun ks => Kind_eqb (fst ks) kind) snippets).

(** What a group contributes: nothing when it is empty, else its header
    and its snippets. *)
Definition section_text (header : string) (snippets : list string) : string :=
  match snippets with
  | [] => ""
  | _ :: _ => header ++ Str.join_all snippets
  end.

(** The lines of a text. *)
Definition lines (text : string) : list string :=
  Str.split (ascii_of_nat 10) text.

(** Every line that is not empty begins with [d] indent units. *)
Definition all_indented (d : nat) (text : string) : bool :=
  forallb (fun line => (line =? "") || Str.startswith line (Str.times INDENT d))
          (lines text).

(** ** More sample systems *)

Module Samples.

(** A root whose README.md is empty. *)
Definition empty_readme : OS :=
  Sample.make_os [("proj", ["README.md"; "Main.java"])]
                 [("proj/README.md", ""); ("proj/Main.java", "class Main {}")].

(** A root below a directory named "test". *)
Definition under_test : OS :=
  Sample.make_os [("lab/Test/proj", ["src"; "pom.xml"]);
                  ("lab/Test/proj/src", ["Main.java"])]
                 [("lab/Test/proj/pom.xml", "<project/>");
                  ("lab/Test/proj/src/Main.java", "class Main {}")].

(** A root below a directory named "build". *)
Definition under_build : OS :=
  Sample.make_os [("build/proj", ["src"; "pom.xml"]);
                  ("build/proj/src", ["Main.java"])]
                 [("build/proj/pom.xml", "<project/>");
                  ("build/proj/src/Main.java", "class Main {}")].

(** A project with a directory that may not be listed. *)
Definition locked : OS :=
  let plain :=
    Sample.make_os [("proj", ["secret"; "a.md"]); ("proj/secret", ["key.json"])]
                   [("proj/a.md", "A"); ("proj/secret/key.json", "{}")] in
  {| listdir := fun path =>
       if path =? "proj/secret" then
         Raise (mkExn PermissionError
                      "[Errno 13] Permission denied: 'proj/secret'")
       else listdir plain path;
     isdir := isdir plain;
     path_exists := path_exists plain;
     read_text := read_text plain;
     getcwd := "/home/user";
     recursion_limit := 1000 |}.

(** A project with a directory whose listing fails with an I/O error. *)
Definition io_error : exn :=
  mkExn OSError "[Errno 5] Input/output error: 'proj/data'".

Definition broken : OS :=
  let plain :=
    Sample.make_os [("proj", ["data"; "a.md"]); ("proj/data", ["x.json"])]
                   [("proj/a.md", "A"); ("proj/data/x.json", "{}")] in
  {| listdir := fun path =>
       if path =? "proj/data" then Raise io_error else listdir plain path;
     isdir := isdir plain;
     path_exists := path_exists plain;
     read_text := read_text plain;
     getcwd := "/home/user";
     recursion_limit := 1000 |}.

(** A project with a file that is not UTF-8 before one that is. *)
Definition with_binary : OS :=
  {| listdir := listdir (Sample.make_os [("proj", ["a.json"; "b.json"])] []);
     isdir := isdir (Sample.make_os [("proj", ["a.json"; "b.json"])] []);
     path_exists := fun path => (path =? "proj") || (path =? "proj/a.json")
                                || (path =? "proj/b.json");
     read_text := fun path =>
       if path =? "proj/a.json" then
         Raise (mkExn UnicodeDecodeError
                      "'utf-8' codec can't decode byte 0xff in position 0: invalid start byte")
       else if path =? "proj/b.json" then Ok "{}"
       else Raise (Sample.no_such path);
     getcwd := "/home/user";
     recursion_limit := 1000 |}.

End Samples.

(** * Properties *)

(** ** Strings *)

Section StringFacts.

Lemma append_nil_r (s : string) : s ++ "" = s.
Proof. induction s; simpl; congruence. Qed.

Lemma append_assoc (a b c : string) : (a ++ b) ++ c = a ++ b ++ c.
Proof. induction a; simpl; congruence. Qed.

Lemma append_eq_nil (a b : string) : a ++ b = "" -> a = "" /\ b = "".
Proof. destruct a; simpl; [auto | discriminate]. Qed.

Lemma startswith_app (p s : string) : Str.startswith (p ++ s) p = true.
Proof. unfold Str.startswith. induction p; simpl.
  - now destruct s.
  - destruct (ascii_dec a a); [assumption | congruence].
Qed.

Lemma startswith_inv (s p : string) :
  Str.startswith s p = true -> exists rest, s = p ++ rest.
Proof.
  unfold Str.startswith. revert s. induction p as [|c p IH]; intros s H.
  - now exists s.
  - destruct s as [|c' s]; simpl in H; [discriminate|].
    destruct (ascii_dec c c'); [subst | discriminate].
    destruct (IH _ H) as [rest ->]. now exists rest.
Qed.

Lemma endswith_app (pre suffix : string) :
  Str.endswith (pre ++ suffix) suffix = true.
Proof.
  induction pre as [|c pre IH]; simpl.
  - destruct suffix; simpl; rewrite ?String.eqb_refl, ?Ascii.eqb_refl; reflexivity.
  - rewrite IH. apply orb_true_r.
Qed.

Lemma endswith_inv (s suffix : string) :
  Str.endswith s suffix = true -> exists pre, s = pre ++ suffix.
Proof.
  induction s as [|c s IH]; cbn [Str.endswith]; intros H.
  - rewrite orb_false_r in H. apply String.eqb_eq in H. now exists "".
  - apply orb_true_iff in H. destruct H as [H | H].
    + apply String.eqb_eq in H. now exists "".
    + destruct (IH H) as [pre ->]. now exists (String c pre).
Qed.

Lemma mem_In (x : string) (l : list string) :
  Str.mem x l = true <-> In x l.
Proof.
  unfold Str.mem. rewrite existsb_exists. split.
  - intros [y [Hy Heq]]. apply String.eqb_eq in Heq. now subst.
  - intros H. exists x. split; [assumption | apply String.eqb_refl].
Qed.

Lemma split_not_nil (sep : ascii) (s : string) : Str.split sep s <> [].
Proof.
  destruct s as [|c s]; simpl; [discriminate|].
  destruct (Ascii.eqb c sep); [discriminate|].
  destruct (Str.split sep s); discriminate.
Qed.

(** Splitting distributes over a separator between two strings. *)
Lemma split_app_sep (sep : ascii) (a b : string) :
  Str.split sep (a ++ String sep b)
  = (Str.split sep a ++ Str.split sep b)%list.
Proof.
  induction a as [|c a IH]; simpl.
  - now rewrite Ascii.eqb_refl.
  - destruct (Ascii.eqb c sep); [now rewrite IH|].
    rewrite IH. pose proof (split_not_nil sep a) as Hne.
    destruct (Str.split sep a); [congruence | reflexivity].
Qed.

Lemma lower_ascii_sep (c : ascii) :
  Ascii.eqb (Str.lower_ascii c) PosixPath.sep = Ascii.eqb c PosixPath.sep.
Proof.
  destruct c as [[] [] [] [] [] [] [] []]; reflexivity.
Qed.

(** Lowering a path and splitting it is splitting it and lowering the
    segments. *)
Lemma split_lower (s : string) :
  Str.split PosixPath.sep (Str.lower s)
  = map Str.lower (Str.split PosixPath.sep s).
Proof.
  induction s as [|c s IH]; simpl; [reflexivity|].
  rewrite lower_ascii_sep. destruct (Ascii.eqb c PosixPath.sep).
  - now rewrite IH.
  - rewrite IH. pose proof (split_not_nil PosixPath.sep s) as Hne.
    destruct (Str.split PosixPath.sep s); [congruence | reflexivity].
Qed.

End StringFacts.

(** ** Paths and their segments *)

Section PathFacts.

(** The segments of [a] other than empty ones are segments of
    [join a b], for a [b] that is not absolute. *)
Lemma join_keeps_segments (a b seg : string) :
  Str.startswith b "/" = false ->
  In seg (Str.split PosixPath.sep a) -> seg <> "" ->
  In seg (Str.split PosixPath.sep (PosixPath.join a b)).
Proof.
  intros Hb Hin Hne. unfold PosixPath.join. rewrite Hb.
  destruct (a =? "") eqn:Ha; simpl.
  - apply String.eqb_eq in Ha. subst a. simpl in Hin.
    destruct Hin as [<- | []]. congruence.
  - destruct (Str.endswith a "/") eqn:He.
    + apply endswith_inv in He. destruct He as [pre ->].
      rewrite append_assoc. change ("/" ++ b) with (String PosixPath.sep b).
      rewrite split_app_sep. apply in_or_app. left.
      change "/" with (String PosixPath.sep "") in Hin.
      rewrite split_app_sep in Hin. apply in_app_or in Hin.
      destruct Hin as [Hin | Hin]; [assumption|].
      simpl in Hin. destruct Hin as [<- | []]. congruence.
    + change ("/" ++ b) with (String PosixPath.sep b).
      rewrite split_app_sep. apply in_or_app. now left.
Qed.

(** The segments of the entry are segments of [join a b]. *)
Lemma join_entry_segments (a b seg : string) :
  Str.startswith b "/" = false ->
  In seg (Str.split PosixPath.sep b) ->
  In seg (Str.split PosixPath.sep (PosixPath.join a b)).
Proof.
  intros Hb Hin. unfold PosixPath.join. rewrite Hb.
  destruct (a =? "") eqn:Ha; simpl.
  - apply String.eqb_eq in Ha. now subst a.
  - destruct (Str.endswith a "/") eqn:He.
    + apply endswith_inv in He. destruct He as [pre ->].
      rewrite append_assoc. change ("/" ++ b) with (String PosixPath.sep b).
      rewrite split_app_sep. apply in_or_app. now right.
    + change ("/" ++ b) with (String PosixPath.sep b).
      rewrite split_app_sep. apply in_or_app. now right.
Qed.

(** [join a b] has no segments but those of [a] and of [b]. *)
Lemma join_segments_inv (a b seg : string) :
  Str.startswith b "/" = false ->
  In seg (Str.split PosixPath.sep (PosixPath.join a b)) ->
  In seg (Str.split PosixPath.sep a) \/ In seg (Str.split PosixPath.sep b).
Proof.
  intros Hb. unfold PosixPath.join. rewrite Hb.
  destruct (a =? "") eqn:Ha; simpl.
  - apply String.eqb_eq in Ha. subst a. now right.
  - destruct (Str.endswith a "/") eqn:He.
    + apply endswith_inv in He. destruct He as [pre ->].
      rewrite append_assoc. change ("/" ++ b) with (String PosixPath.sep b).
      change "/" with (String PosixPath.sep "").
      rewrite !split_app_sep, !in_app_iff. tauto.
    + change ("/" ++ b) with (String PosixPath.sep b).
      rewrite split_app_sep, in_app_iff. tauto.
Qed.

Lemma join_nonempty (a b : string) :
  a <> "" -> PosixPath.join a b <> "".
Proof.
  intros Ha. unfold PosixPath.join.
  destruct (Str.startswith b "/") eqn:Hb.
  - apply startswith_inv in Hb. destruct Hb as [rest ->]. discriminate.
  - destruct ((a =? "") || Str.endswith a "/").
    + intros H. apply append_eq_nil in H. tauto.
    + intros H. apply append_eq_nil in H. tauto.
Qed.

(** Line 67 decides: some segment of the path is an ignore pattern. *)
Lemma should_ignore_spec (full_path : string) :
  should_ignore full_path = true <->
  exists seg, In seg (Str.split PosixPath.sep full_path)
              /\ In seg IGNORE_PATTERNS.
Proof.
  unfold should_ignore. rewrite existsb_exists. split.
  - intros [pattern [Hp Hm]]. apply mem_In in Hm. now exists pattern.
  - intros [seg [Hs Hp]]. exists seg. split; [assumption|]. now apply mem_In.
Qed.

Lemma ignore_pattern_nonempty (seg : string) :
  In seg IGNORE_PATTERNS -> seg <> "".
Proof.
  intros H Heq. subst seg. apply mem_In in H. discriminate.
Qed.

(** What lies below an ignored path is ignored. *)
Lemma should_ignore_join (a b : string) :
  Str.startswith b "/" = false ->
  should_ignore a = true -> should_ignore (PosixPath.join a b) = true.
Proof.
  intros Hb Ha. apply should_ignore_spec in Ha. destruct Ha as [seg [Hs Hp]].
  apply should_ignore_spec. exists seg. split; [|assumption].
  apply join_keeps_segments; auto using ignore_pattern_nonempty.
Qed.

(** Line 88 decides: some segment of the path is "test" in some case. *)
Lemma test_segment_spec (full_path : string) :
  Str.mem "test" (Str.split PosixPath.sep (Str.lower full_path)) = true <->
  exists seg, In seg (Str.split PosixPath.sep full_path)
              /\ Str.lower seg = "test".
Proof.
  rewrite mem_In, split_lower, in_map_iff. split.
  - intros [seg [Hl Hin]]. now exists seg.
  - intros [seg [Hin Hl]]. now exists seg.
Qed.

End PathFacts.

(** ** Sorting the entries *)

Section SortFacts.

Lemma ascii_compare_N (a b : ascii) :
  Ascii.compare a b = N.compare (N_of_ascii a) (N_of_ascii b).
Proof. reflexivity. Qed.

Lemma string_leb_trans (a b c : string) :
  String.leb a b = true -> String.leb b c = true -> String.leb a c = true.
Proof.
  unfold String.leb. revert b c.
  induction a as [|x a IH]; intros [|y b] [|z c]; simpl; try congruence.
  rewrite !ascii_compare_N.
  destruct (N.compare_spec (N_of_ascii x) (N_of_ascii y)) as [Hxy|Hxy|Hxy];
    destruct (N.compare_spec (N_of_ascii y) (N_of_ascii z)) as [Hyz|Hyz|Hyz];
    destruct (N.compare_spec (N_of_ascii x) (N_of_ascii z)) as [Hxz|Hxz|Hxz];
    try congruence; try (exfalso; lia); try apply IH.
Qed.

Lemma sort_strongly_sorted (l : list string) :
  StronglySorted (fun a b => String.leb a b = true) (StringSort.sort l).
Proof.
  apply Sorted_StronglySorted.
  - intros a b c. apply string_leb_trans.
  - apply StringSort.Sorted_sort.
Qed.

(** A list has one sorted arrangement. *)
Lemma sorted_permutation_unique (l1 l2 : list string) :
  StronglySorted (fun a b => String.leb a b = true) l1 ->
  StronglySorted (fun a b => String.leb a b = true) l2 ->
  Permutation l1 l2 -> l1 = l2.
Proof.
  intros H1. revert l2. induction H1 as [|a l1 Hs1 IH Ha]; intros l2 H2 Hp.
  - apply Permutation_nil in Hp. now subst.
  - destruct H2 as [|b l2 Hs2 Hb].
    + apply Permutation_sym, Permutation_nil in Hp. discriminate.
    + assert (a = b) as ->.
      { assert (In a (b :: l2)) as Hin1
          by (eapply Permutation_in; [exact Hp | now left]).
        assert (In b (a :: l1)) as Hin2
          by (eapply Permutation_in; [exact (Permutation_sym Hp) | now left]).
        destruct Hin1 as [-> | Hin1]; [reflexivity|].
        destruct Hin2 as [-> | Hin2]; [reflexivity|].
        rewrite Forall_forall in Ha, Hb.
        apply String.leb_antisym; auto. }
      f_equal. apply IH; [assumption|].
      now apply Permutation_cons_inv in Hp.
Qed.

(** [entries.sort()] does not depend on the order [os.listdir] chose. *)
Lemma sort_permutation (l1 l2 : list string) :
  Permutation l1 l2 -> StringSort.sort l1 = StringSort.sort l2.
Proof.
  intros Hp. apply sorted_permutation_unique;
    try apply sort_strongly_sorted.
  eapply Permutation_trans; [apply Permutation_sym, StringSort.Permuted_sort|].
  eapply Permutation_trans; [exact Hp | apply StringSort.Permuted_sort].
Qed.

Lemma sort_In (l : list string) (x : string) :
  In x (StringSort.sort l) <-> In x l.
Proof.
  split; apply Permutation_in;
    [apply Permutation_sym|]; apply StringSort.Permuted_sort.
Qed.

End SortFacts.

(** ** What the walk visits *)

Lemma join_all_cons (x : string) (xs : list string) :
  Str.join_all (x :: xs) = x ++ Str.join_all xs.
Proof.
  unfold Str.join_all. destruct xs; simpl; [now rewrite append_nil_r | reflexivity].
Qed.

Lemma join_all_app (xs ys : list string) :
  Str.join_all (xs ++ ys) = Str.join_all xs ++ Str.join_all ys.
Proof.
  induction xs as [|x xs IH]; [reflexivity|].
  change ((x :: xs) ++ ys)%list with (x :: (xs ++ ys))%list.
  now rewrite !join_all_cons, IH, append_assoc.
Qed.

Section WalkFacts.

Variable os : OS.

Lemma visits_unfold (base : string) (i : nat) (names : list string)
      (dir : string) (d : nat) (entry : string) :
  listdir os base = Ok names ->
  visits os base i dir d entry <->
  (dir = base /\ d = i /\ In entry names
   /\ should_ignore (PosixPath.join base entry) = false)
  \/ (exists sub, In sub names
                  /\ should_ignore (PosixPath.join base sub) = false
                  /\ isdir os (PosixPath.join base sub) = true
                  /\ visits os (PosixPath.join base sub) (S i) dir d entry).
Proof.
  intros Hl. split.
  - intros [Hr [names' [Hl' [Hin Hig]]]]. inversion Hr; subst.
    + left. rewrite Hl in Hl'. injection Hl' as <-. auto.
    + right. rewrite Hl in H. injection H as <-.
      exists entry0. repeat split; auto. now exists names'.
  - intros [[-> [-> [Hin Hig]]] | [sub [Hin [Hig [Hd [Hr Hv]]]]]].
    + split; [constructor|]. now exists names.
    + split; [|assumption]. now apply reaches_down with names sub.
Qed.

Lemma visits_unlisted (base : string) (i : nat) (e : exn)
      (dir : string) (d : nat) (entry : string) :
  listdir os base = Raise e -> ~ visits os base i dir d entry.
Proof.
  intros Hl [Hr [names [Hl' _]]]. inversion Hr; subst; congruence.
Qed.
Lemma line_of_unfold (base : string) (i : nat) (names : list string) (l : string) :
  listdir os base = Ok names ->
  line_of os base i l <-> entries_lines os base i names l.
Proof.
  intros Hl. unfold line_of, entries_lines. split.
  - intros [dir [d [entry [Hv ->]]]].
    apply (visits_unfold _ _ _ _ _ _ Hl) in Hv.
    destruct Hv as [[-> [-> [Hin Hig]]] | [sub [Hin [Hig [Hd Hv]]]]].
    + exists entry. auto.
    + exists sub. repeat split; auto. right. split; [assumption|].
      now exists dir, d, entry.
  - intros [entry [Hin [Hig [-> | [Hd [dir [d [e [Hv ->]]]]]]]]].
    + exists base, i, entry. split; [|reflexivity].
      apply (visits_unfold _ _ _ _ _ _ Hl). left. auto.
    + exists dir, d, e. split; [|reflexivity].
      apply (visits_unfold _ _ _ _ _ _ Hl). right. now exists entry.
Qed.

Lemma record_of_unfold (base : string) (i : nat) (names : list string)
      (r : FileRecord) :
  listdir os base = Ok names ->
  record_of os base i r <-> entries_records os base i names r.
Proof.
  intros Hl. unfold record_of, entries_records. split.
  - intros [dir [d [entry [kind [Hv [Hf [Hc ->]]]]]]].
    apply (visits_unfold _ _ _ _ _ _ Hl) in Hv.
    destruct Hv as [[-> [-> [Hin Hig]]] | [sub [Hin [Hig [Hd Hv]]]]].
    + exists entry. repeat split; auto. left. split; [assumption|].
      now exists kind.
    + exists sub. repeat split; auto. right. split; [assumption|].
      now exists dir, d, entry, kind.
  - intros [entry [Hin [Hig [[Hf [kind [Hc ->]]]
                            | [Hd [dir [d [e [kind [Hv [Hf [Hc ->]]]]]]]]]]]].
    + exists base, i, entry, kind. split; [|auto].
      apply (visits_unfold _ _ _ _ _ _ Hl). left. auto.
    + exists dir, d, e, kind. split; [|auto].
      apply (visits_unfold _ _ _ _ _ _ Hl). right. now exists entry.
Qed.

End WalkFacts.

Section WalkReturns.

Variable os : OS.

Lemma entries_lines_cons (base : string) (i : nat) (entry : string)
      (es : list string) (l : string) :
  entries_lines os base i (entry :: es) l <->
  (should_ignore (PosixPath.join base entry) = false
   /\ (l = entry_line i entry (isdir os (PosixPath.join base entry))
       \/ (isdir os (PosixPath.join base entry) = true
           /\ line_of os (PosixPath.join base entry) (S i) l)))
  \/ entries_lines os base i es l.
Proof.
  unfold entries_lines. split.
  - intros [e [[<- | Hin] H]]; [now left | right; now exists e].
  - intros [H | [e [Hin H]]]; [exists entry | exists e]; simpl; auto.
Qed.

Lemma entries_records_cons (base : string) (i : nat) (entry : string)
      (es : list string) (r : FileRecord) :
  entries_records os base i (entry :: es) r <->
  (should_ignore (PosixPath.join base entry) = false
   /\ ((isdir os (PosixPath.join base entry) = false
        /\ exists kind, classify entry (PosixPath.join base entry) = Some kind
                        /\ r = (i, PosixPath.join base entry, kind))
       \/ (isdir os (PosixPath.join base entry) = true
           /\ record_of os (PosixPath.join base entry) (S i) r)))
  \/ entries_records os base i es r.
Proof.
  unfold entries_records. split.
  - intros [e [[<- | Hin] H]]; [now left | right; now exists e].
  - intros [H | [e [Hin H]]]; [exists entry | exists e]; simpl; auto.
Qed.

(** The loop of lines 63-91, given that the recursive calls return what
    they should. *)
Lemma walk_entries_returns
      (recurse : string -> nat -> list FileRecord ->
                 result (string * list FileRecord))
      (base : string) (i : nat) :
  (forall p acc res, recurse p (S i) acc = Ok res ->
                     walk_returns os p (S i) acc res) ->
  forall es t acc res,
    walk_entries os recurse base i es t acc = Ok res ->
    exists lines new,
      fst res = t ++ Str.join_all lines
      /\ snd res = (acc ++ new)%list
      /\ (forall l, In l lines <-> entries_lines os base i es l)
      /\ (forall r, In r new <-> entries_records os base i es r).
Proof.
  intros Hrec. induction es as [|entry es IH]; intros t acc res H; simpl in H.
  - injection H as <-. exists [], []. simpl.
    rewrite append_nil_r, app_nil_r. repeat split; try tauto.
    + intros [e [[] _]].
    + intros [e [[] _]].
  - destruct (should_ignore (PosixPath.join base entry)) eqn:Hig.
    + destruct (IH _ _ _ H) as [lines [new [Ht [Hr [Hl Hn]]]]].
      exists lines, new. repeat split; auto.
      * intros Hin. apply entries_lines_cons. right. now apply Hl.
      * intros Hin. apply entries_lines_cons in Hin.
        destruct Hin as [[Hc _] | Hin]; [congruence | now apply Hl].
      * intros Hin. apply entries_records_cons. right. now apply Hn.
      * intros Hin. apply entries_records_cons in Hin.
        destruct Hin as [[Hc _] | Hin]; [congruence | now apply Hn].
    + destruct (isdir os (PosixPath.join base entry)) eqn:Hd.
      * unfold bind in H.
        destruct (recurse (PosixPath.join base entry) (S i) acc)
          as [[sub fp] | e] eqn:Hcall; [|discriminate].
        destruct (Hrec _ _ _ Hcall) as [lines1 [new1 [Ht1 [Hr1 [Hl1 Hn1]]]]].
        simpl in Ht1, Hr1. subst sub fp.
        destruct (IH _ _ _ H) as [lines2 [new2 [Ht2 [Hr2 [Hl2 Hn2]]]]].
        exists (entry_line i entry true :: lines1 ++ lines2)%list,
               (new1 ++ new2)%list.
        split; [|split; [|split]].
        -- rewrite Ht2, join_all_cons, join_all_app. unfold entry_line.
           simpl. now rewrite !append_assoc.
        -- now rewrite Hr2, app_assoc.
        -- intros l. rewrite entries_lines_cons, Hd. simpl.
           rewrite in_app_iff, Hl1, Hl2. intuition congruence.
        -- intros r. rewrite entries_records_cons, Hd.
           rewrite in_app_iff, Hn1, Hn2. intuition congruence.
      * assert (exists new1,
                   (forall r, In r new1 <->
                      exists kind,
                        classify entry (PosixPath.join base entry) = Some kind
                        /\ r = (i, PosixPath.join base entry, kind))
                   /\ walk_entries os recurse base i es
                        (t ++ Str.times INDENT i ++ entry ++ NL)
                        (acc ++ new1)%list = Ok res) as [new1 [Hn1 H']].
        { destruct (classify entry (PosixPath.join base entry)) as [kind|].
          - exists [(i, PosixPath.join base entry, kind)]. split; [|exact H].
            intros r. simpl. split.
            + intros [<- | []]. now exists kind.
            + intros [k [Hk ->]]. injection Hk as ->. now left.
          - exists []. rewrite app_nil_r. split; [|exact H].
            intros r. simpl. split; [tauto|]. intros [k [Hk _]]. discriminate. }
        destruct (IH _ _ _ H') as [lines2 [new2 [Ht2 [Hr2 [Hl2 Hn2]]]]].
        exists (entry_line i entry false :: lines2), (new1 ++ new2)%list.
        split; [|split; [|split]].
        -- rewrite Ht2, join_all_cons. unfold entry_line.
           simpl. now rewrite !append_assoc.
        -- now rewrite Hr2, app_assoc.
        -- intros l. rewrite entries_lines_cons, Hd. simpl.
           rewrite Hl2. intuition congruence.
        -- intros r. rewrite entries_records_cons, Hd.
           rewrite in_app_iff, Hn1, Hn2. intuition congruence.
Qed.

(** Every call that returns, returns the lines and the records of what
    it visits. *)
Lemma walk_returns_visited (frames : nat) :
  forall base i acc res,
    walk os frames base i acc = Ok res -> walk_returns os base i acc res.
Proof.
  induction frames as [|frames IH]; intros base i acc res H; simpl in H;
    [discriminate|].
  destruct (listdir os base) as [names | e] eqn:Hl.
  - apply walk_entries_returns in H; [|intros; now apply IH].
    destruct H as [lines [new [Ht [Hr [Hlines Hnew]]]]].
    exists lines, new. repeat split; auto.
    + intros Hin. apply (line_of_unfold os _ _ _ _ Hl).
      apply Hlines in Hin. destruct Hin as [e [Hin H]].
      exists e. split; [now apply sort_In | exact H].
    + intros Hin. apply (line_of_unfold os _ _ _ _ Hl) in Hin.
      apply Hlines. destruct Hin as [e [Hin H]].
      exists e. split; [now apply sort_In | exact H].
    + intros Hin. apply (record_of_unfold os _ _ _ _ Hl).
      apply Hnew in Hin. destruct Hin as [e [Hin H]].
      exists e. split; [now apply sort_In | exact H].
    + intros Hin. apply (record_of_unfold os _ _ _ _ Hl) in Hin.
      apply Hnew. destruct Hin as [e [Hin H]].
      exists e. split; [now apply sort_In | exact H].
  - destruct (listing_error_caught e); [|discriminate].
    injection H as <-. exists [], []. simpl. rewrite app_nil_r.
    repeat split; try tauto.
    + intros [dir [d [entry [Hv _]]]]. now apply visits_unlisted with (e := e) in Hv.
    + intros [dir [d [entry [k [Hv _]]]]]. now apply visits_unlisted with (e := e) in Hv.
Qed.

End WalkReturns.

(** ** When the walk returns *)

Section WalkTotal.

Variable os : OS.

Lemma scannable_safe (base : string) (i frames : nat) :
  scannable os frames base = true -> safe os base i frames.
Proof.
  intros Hs dir d Hr. revert frames Hs.
  induction Hr as [base i | base i names entry dir d Hl Hin Hig Hd Hr IH];
    intros [|frames] Hs; simpl in Hs; try discriminate.
  - split; [lia|]. intros e He. now rewrite He in Hs.
  - rewrite Hl in Hs. rewrite forallb_forall in Hs.
    specialize (Hs _ Hin). simpl in Hs. rewrite Hig, Hd in Hs. simpl in Hs.
    destruct (IH _ Hs) as [Hlt He]. split; [lia | exact He].
Qed.

Lemma safe_down (base : string) (i frames : nat) (names : list string)
      (entry : string) :
  safe os base i (S frames) ->
  listdir os base = Ok names -> In entry names ->
  should_ignore (PosixPath.join base entry) = false ->
  isdir os (PosixPath.join base entry) = true ->
  safe os (PosixPath.join base entry) (S i) frames.
Proof.
  intros Hs Hl Hin Hig Hd dir d Hr.
  destruct (Hs dir d) as [Hlt He].
  - now apply reaches_down with names entry.
  - split; [lia | exact He].
Qed.

Lemma walk_entries_total
      (recurse : string -> nat -> list FileRecord ->
                 result (string * list FileRecord))
      (base : string) (i : nat) (es : list string) :
  (forall entry acc,
      In entry es ->
      should_ignore (PosixPath.join base entry) = false ->
      isdir os (PosixPath.join base entry) = true ->
      exists res, recurse (PosixPath.join base entry) (S i) acc = Ok res) ->
  forall t acc, exists res, walk_entries os recurse base i es t acc = Ok res.
Proof.
  induction es as [|entry es IH]; intros Hrec t acc; simpl.
  - now eexists.
  - assert (Hrec' : forall entry acc,
               In entry es ->
               should_ignore (PosixPath.join base entry) = false ->
               isdir os (PosixPath.join base entry) = true ->
               exists res, recurse (PosixPath.join base entry) (S i) acc = Ok res)
      by (intros; apply Hrec; simpl; auto).
    destruct (should_ignore (PosixPath.join base entry)) eqn:Hig; [now apply IH|].
    destruct (isdir os (PosixPath.join base entry)) eqn:Hd.
    + destruct (Hrec entry acc) as [[sub fp] Hcall]; simpl; auto.
      rewrite Hcall. simpl. now apply IH.
    + destruct (classify entry (PosixPath.join base entry)); now apply IH.
Qed.

(** A safe walk returns. *)
Lemma walk_total (frames : nat) :
  forall base i acc,
    safe os base i frames -> exists res, walk os frames base i acc = Ok res.
Proof.
  induction frames as [|frames IH]; intros base i acc Hs.
  - destruct (Hs base i (reaches_here os base i)) as [Hlt _]. lia.
  - simpl. destruct (listdir os base) as [names | e] eqn:Hl.
    + apply walk_entries_total. intros entry acc' Hin Hig Hd.
      apply IH. apply safe_down with names; auto.
      now apply sort_In.
    + destruct (Hs base i (reaches_here os base i)) as [_ He].
      rewrite (He e Hl). now eexists.
Qed.

End WalkTotal.

Lemma has_test_segment_spec (path : string) :
  has_test_segment path
  = Str.mem "test" (Str.split PosixPath.sep (Str.lower path)).
Proof.
  apply eq_true_iff_eq. rewrite test_segment_spec.
  unfold has_test_segment. rewrite existsb_exists.
  split; intros [seg [Hin Hl]]; exists seg; split; auto;
    now apply String.eqb_eq.
Qed.

(** Lines 81-91 record a file iff it is relevant, under the
    classification of the rule. *)
Lemma classify_spec (entry full_path : string) :
  classify entry full_path
  = if is_relevant entry then Some (classification entry full_path) else None.
Proof.
  unfold classify, is_relevant, classification.
  rewrite has_test_segment_spec.
  destruct (Str.mem entry SPECIAL_BUILD_FILES); cbn [orb]; [reflexivity|].
  destruct (Str.endswith_any entry RELEVANT_ENDINGS); [|reflexivity].
  now destruct (Str.mem "test" _).
Qed.

(** ** Lines of the tree *)

Lemma entry_line_ends (d : nat) (entry : string) (is_dir : bool) :
  Str.endswith (entry_line d entry is_dir) NL = true.
Proof.
  unfold entry_line. destruct is_dir.
  - replace (Str.times INDENT d ++ "[" ++ entry ++ "/]" ++ NL)
      with ((Str.times INDENT d ++ "[" ++ entry ++ "/]") ++ NL)
      by (now rewrite !append_assoc).
    apply endswith_app.
  - rewrite <- append_assoc. apply endswith_app.
Qed.

Lemma join_all_ends (lines : list string) :
  (forall l, In l lines -> Str.endswith l NL = true) ->
  Str.join_all lines = "" \/ Str.endswith (Str.join_all lines) NL = true.
Proof.
  induction lines as [|l lines IH] using rev_ind; intros H; [now left|].
  right. rewrite join_all_app, join_all_cons.
  destruct (endswith_inv l NL) as [pre ->].
  - apply H, in_or_app. right. now left.
  - change (Str.join_all []) with "". rewrite append_nil_r, <- append_assoc.
    apply endswith_app.
Qed.

Lemma visited_line (os : OS) (base : string) (i : nat)
      (acc : list FileRecord) (res : string * list FileRecord)
      (dir : string) (d : nat) (entry : string) :
  walk_returns os base i acc res ->
  visits os base i dir d entry ->
  tree_has_line (fst res)
                (entry_line d entry (isdir os (PosixPath.join dir entry))).
Proof.
  intros [lines [new [Ht [_ [Hl _]]]]] Hv.
  assert (In (entry_line d entry (isdir os (PosixPath.join dir entry))) lines)
    as Hin by (apply Hl; now exists dir, d, entry).
  apply in_split in Hin. destruct Hin as [l1 [l2 Heq]].
  exists (Str.join_all l1), (Str.join_all l2). split.
  - now rewrite Ht, Heq, join_all_app, join_all_cons.
  - apply join_all_ends. intros l Hin.
    assert (In l lines) as Hin' by (rewrite Heq; apply in_or_app; now left).
    apply Hl in Hin'. destruct Hin' as [dir' [d' [e' [_ ->]]]].
    apply entry_line_ends.
Qed.

(** ** The path relative to the root *)

Section RelpathFacts.

Lemma valid_name_inv (n : string) :
  valid_name n = true ->
  n <> "" /\ n <> "." /\ n <> ".." /\ has_char PosixPath.sep n = false.
Proof.
  unfold valid_name. rewrite !andb_true_iff, !negb_true_iff.
  intros [[[H1 H2] H3] H4]. repeat split; try (now apply String.eqb_neq).
  exact H4.
Qed.

Lemma split_whole (sep : ascii) (s : string) :
  has_char sep s = false -> Str.split sep s = [s].
Proof.
  induction s as [|c s IH]; simpl; [reflexivity|].
  intros H. apply orb_false_iff in H. destruct H as [Hc Hs].
  rewrite Hc, (IH Hs). reflexivity.
Qed.

Lemma split_pieces_whole (sep : ascii) (s piece : string) :
  In piece (Str.split sep s) -> has_char sep piece = false.
Proof.
  revert piece. induction s as [|c s IH]; simpl; intros piece Hin.
  - destruct Hin as [<- | []]. reflexivity.
  - destruct (Ascii.eqb c sep) eqn:Hc.
    + destruct Hin as [<- | Hin]; [reflexivity | now apply IH].
    + destruct (Str.split sep s) as [|h t] eqn:Hs;
        [now destruct (split_not_nil sep s)|].
      destruct Hin as [<- | Hin].
      * simpl. rewrite Hc. apply IH. now left.
      * apply IH. now right.
Qed.

Lemma startswith_sep_cons (c : ascii) (s : string) :
  Str.startswith (String c s) "/" = Ascii.eqb c PosixPath.sep.
Proof.
  unfold Str.startswith. cbn [String.prefix].
  destruct (ascii_dec "/" c) as [<- | Hne].
  - now destruct s.
  - symmetry. apply Ascii.eqb_neq. unfold PosixPath.sep. congruence.
Qed.

Lemma not_absolute (n : string) :
  has_char PosixPath.sep n = false -> Str.startswith n "/" = false.
Proof.
  destruct n as [|c n]; [reflexivity|]. cbn [has_char]. intros H.
  apply orb_false_iff in H. destruct H as [Hc _].
  now rewrite startswith_sep_cons.
Qed.

Lemma endswith_sep_app (a n : string) :
  n <> "" -> Str.endswith (a ++ n) "/" = Str.endswith n "/".
Proof.
  intros Hn. induction a as [|c a IH]; [reflexivity|].
  cbn [append Str.endswith]. rewrite IH.
  destruct (a ++ n) as [|c' r] eqn:Heq.
  - apply append_eq_nil in Heq. tauto.
  - replace (String c (String c' r) =? "/") with false; [reflexivity|].
    symmetry. apply String.eqb_neq. discriminate.
Qed.

Lemma endswith_sep_whole (n : string) :
  has_char PosixPath.sep n = false -> Str.endswith n "/" = false.
Proof.
  induction n as [|c n IH]; [reflexivity|].
  cbn [has_char Str.endswith]. intros H.
  apply orb_false_iff in H. destruct H as [Hc Hn]. rewrite (IH Hn), orb_false_r.
  apply String.eqb_neq. intros Heq. injection Heq as -> _. discriminate.
Qed.

(** One more component on the path is one more step of [normpath]. *)
Lemma normpath_fold_join (k : nat) (a n : string) (acc : list string) :
  has_char PosixPath.sep n = false ->
  fold_left (PosixPath.normpath_step k)
            (Str.split PosixPath.sep (PosixPath.join a n)) acc
  = PosixPath.normpath_step
      k (fold_left (PosixPath.normpath_step k) (Str.split PosixPath.sep a) acc) n.
Proof.
  intros Hn. unfold PosixPath.join. rewrite (not_absolute n Hn).
  destruct (a =? "") eqn:Ha; cbn [orb].
  - apply String.eqb_eq in Ha. subst a. cbn [append Str.split fold_left].
    now rewrite (split_whole _ _ Hn).
  - destruct (Str.endswith a "/") eqn:He.
    + apply endswith_inv in He. destruct He as [pre ->].
      rewrite append_assoc. change ("/" ++ n) with (String PosixPath.sep n).
      change "/" with (String PosixPath.sep "").
      rewrite !split_app_sep, !fold_left_app, (split_whole _ _ Hn).
      reflexivity.
    + change ("/" ++ n) with (String PosixPath.sep n).
      rewrite split_app_sep, fold_left_app, (split_whole _ _ Hn). reflexivity.
Qed.

Lemma normpath_step_name (k : nat) (comps : list string) (n : string) :
  valid_name n = true ->
  PosixPath.normpath_step k comps n = (comps ++ [n])%list.
Proof.
  intros Hv. apply valid_name_inv in Hv. destruct Hv as [H1 [H2 [H3 _]]].
  unfold PosixPath.normpath_step.
  apply String.eqb_neq in H1, H2, H3. now rewrite H1, H2, H3.
Qed.

Lemma normpath_fold_join_list (k : nat) (names : list string) :
  Forall (fun n => valid_name n = true) names ->
  forall a,
    fold_left (PosixPath.normpath_step k)
              (Str.split PosixPath.sep (PosixPath.join_list a names)) []
    = (fold_left (PosixPath.normpath_step k) (Str.split PosixPath.sep a) []
         ++ names)%list.
Proof.
  induction names as [|n names IH] using rev_ind; intros Hall a.
  - simpl. now rewrite app_nil_r.
  - apply Forall_app in Hall. destruct Hall as [Hall Hn].
    inversion Hn as [|? ? Hv _]; subst.
    unfold PosixPath.join_list in *. rewrite fold_left_app. cbn [fold_left].
    rewrite normpath_fold_join by (now apply valid_name_inv in Hv).
    rewrite (IH Hall), (normpath_step_name _ _ _ Hv). now rewrite app_assoc.
Qed.

Lemma normpath_step_components (k : nat) (comps : list string) (c : string) :
  Forall component comps -> has_char PosixPath.sep c = false ->
  Forall component (PosixPath.normpath_step k comps c).
Proof.
  intros Hall Hc. unfold PosixPath.normpath_step.
  destruct (c =? "") eqn:He; cbn [orb]; [exact Hall|].
  destruct (c =? "."); [exact Hall|].
  assert (Hcomp : component c) by (split; [now apply String.eqb_neq | exact Hc]).
  destruct (negb (c =? "..") || _ || _).
  - apply Forall_app. split; [exact Hall | now constructor].
  - apply Forall_forall. intros x Hx. rewrite Forall_forall in Hall.
    apply Hall. clear -Hx. induction comps as [|y comps IH]; [destruct Hx|].
    simpl in Hx. destruct comps; [destruct Hx|].
    destruct Hx as [<- | Hx]; [now left | right; now apply IH].
Qed.

Lemma normpath_fold_components (k : nat) (pieces acc : list string) :
  Forall component acc ->
  (forall c, In c pieces -> has_char PosixPath.sep c = false) ->
  Forall component (fold_left (PosixPath.normpath_step k) pieces acc).
Proof.
  revert acc. induction pieces as [|c pieces IH]; intros acc Hacc Hp;
    [exact Hacc|].
  cbn [fold_left]. apply IH.
  - apply normpath_step_components; [exact Hacc | apply Hp; now left].
  - intros c' Hin. apply Hp. now right.
Qed.

Lemma split_concat_components (comps : list string) :
  Forall component comps ->
  filter PosixPath.nonempty (Str.split PosixPath.sep (String.concat "/" comps))
  = comps.
Proof.
  induction 1 as [|c comps [Hne Hc] Hall IH]; [reflexivity|].
  assert (Hnon : PosixPath.nonempty c = true)
    by (unfold PosixPath.nonempty; apply negb_true_iff; now apply String.eqb_neq).
  destruct comps as [|c' comps].
  - cbn [String.concat]. rewrite (split_whole _ _ Hc). cbn [filter].
    now rewrite Hnon.
  - change (String.concat "/" (c :: c' :: comps))
      with (c ++ String PosixPath.sep (String.concat "/" (c' :: comps))).
    rewrite split_app_sep, filter_app, IH, (split_whole _ _ Hc).
    cbn [filter]. now rewrite Hnon.
Qed.

Lemma split_leading_slashes (k : nat) (s : string) :
  filter PosixPath.nonempty (Str.split PosixPath.sep (Str.times "/" k ++ s))
  = filter PosixPath.nonempty (Str.split PosixPath.sep s).
Proof.
  induction k as [|k IH]; [reflexivity|].
  cbn [Str.times]. rewrite append_assoc.
  change ("/" ++ Str.times "/" k ++ s)
    with ("" ++ String PosixPath.sep (Str.times "/" k ++ s)).
  rewrite split_app_sep. cbn [Str.split app filter PosixPath.nonempty].
  exact IH.
Qed.

(** The components of a normalized absolute path. *)
Lemma normpath_components (path : string) :
  Str.startswith path "/" = true ->
  filter PosixPath.nonempty
         (Str.split PosixPath.sep (PosixPath.normpath path))
  = fold_left (PosixPath.normpath_step 1) (Str.split PosixPath.sep path) [].
Proof.
  intros Habs. unfold PosixPath.normpath.
  destruct path as [|c path]; [discriminate|].
  replace (String c path =? "") with false
    by (symmetry; apply String.eqb_neq; discriminate).
  assert (Hk : exists k, PosixPath.initial_slashes (String c path) = S k).
  { unfold PosixPath.initial_slashes. rewrite Habs.
    destruct (_ && _); eexists; reflexivity. }
  destruct Hk as [k Hk]. rewrite Hk.
  assert (Hstep : forall comps comp,
             PosixPath.normpath_step (S k) comps comp
             = PosixPath.normpath_step 1 comps comp) by reflexivity.
  assert (Hfold : forall pieces acc,
             fold_left (PosixPath.normpath_step (S k)) pieces acc
             = fold_left (PosixPath.normpath_step 1) pieces acc).
  { induction pieces as [|p pieces IH]; intros acc; [reflexivity|].
    cbn [fold_left]. now rewrite Hstep, IH. }
  rewrite Hfold.
  set (comps := fold_left (PosixPath.normpath_step 1)
                          (Str.split PosixPath.sep (String c path)) []).
  assert (Hcomps : Forall component comps).
  { apply normpath_fold_components; [constructor|].
    intros p Hin. now apply split_pieces_whole in Hin. }
  replace ((Str.times "/" (S k) ++ String.concat "/" comps) =? "") with false.
  - rewrite split_leading_slashes. now apply split_concat_components.
  - symmetry. apply String.eqb_neq. discriminate.
Qed.

Lemma common_prefix_length_app (l m : list string) :
  PosixPath.common_prefix_length l (l ++ m) = length l.
Proof.
  induction l as [|x l IH]; [now destruct m|].
  simpl. now rewrite String.eqb_refl, IH.
Qed.

Lemma join_relative_absolute (a n : string) :
  has_char PosixPath.sep n = false ->
  Str.startswith a "/" = true ->
  Str.startswith (PosixPath.join a n) "/" = true.
Proof.
  intros Hn Ha. unfold PosixPath.join. rewrite (not_absolute n Hn).
  apply startswith_inv in Ha. destruct Ha as [rest ->].
  destruct (_ || _); cbn [append]; now rewrite startswith_sep_cons.
Qed.

Lemma join_list_absolute (names : list string) :
  Forall (fun n => valid_name n = true) names ->
  forall a, Str.startswith a "/" = true ->
            Str.startswith (PosixPath.join_list a names) "/" = true.
Proof.
  induction 1 as [|n names Hv _ IH]; intros a Ha; [exact Ha|].
  cbn [PosixPath.join_list fold_left]. apply IH.
  apply join_relative_absolute; [|exact Ha].
  now apply valid_name_inv in Hv.
Qed.

Lemma join_relative (a n : string) :
  valid_name n = true ->
  Str.startswith a "/" = false ->
  Str.startswith (PosixPath.join a n) "/" = false.
Proof.
  intros Hv Ha. apply valid_name_inv in Hv. destruct Hv as [Hne [_ [_ Hn]]].
  unfold PosixPath.join. rewrite (not_absolute n Hn).
  destruct a as [|c a]; [exact (not_absolute n Hn)|].
  rewrite startswith_sep_cons in Ha.
  destruct (_ || _); cbn [append]; now rewrite startswith_sep_cons.
Qed.

Lemma join_not_absolute (a b : string) :
  Str.startswith b "/" = false ->
  PosixPath.join a b
  = if (a =? "") || Str.endswith a "/" then a ++ b else a ++ "/" ++ b.
Proof. intros Hb. unfold PosixPath.join. now rewrite Hb. Qed.

(** Joining below the working directory goes through [join]. *)
Lemma join_join (cwd a n : string) :
  Str.startswith cwd "/" = true ->
  valid_name n = true ->
  Str.startswith a "/" = false ->
  PosixPath.join cwd (PosixPath.join a n)
  = PosixPath.join (PosixPath.join cwd a) n.
Proof.
  intros Hcwd Hv Ha.
  pose proof (join_relative a n Hv Ha) as Han.
  apply valid_name_inv in Hv. destruct Hv as [Hne [_ [_ Hn]]].
  pose proof (not_absolute n Hn) as Hrel.
  assert (Hcne : (cwd =? "") = false)
    by (apply String.eqb_neq; intros ->; discriminate).
  rewrite (join_not_absolute cwd _ Han), (join_not_absolute cwd a Ha),
    !(join_not_absolute _ n Hrel).
  rewrite Hcne. cbn [orb].
  destruct (a =? "") eqn:Hae.
  - apply String.eqb_eq in Hae. subst a. cbn [orb append].
    destruct (Str.endswith cwd "/") eqn:Hce.
    + now rewrite append_nil_r, Hcne, Hce.
    + replace (cwd ++ "/" =? "") with false
        by (symmetry; apply String.eqb_neq; intros H;
            apply append_eq_nil in H; destruct H; discriminate).
      rewrite endswith_app. cbn [orb]. now rewrite append_assoc.
  - assert (Hane : a <> "") by (now apply String.eqb_neq).
    cbn [orb].
    assert (Hend : forall x, Str.endswith (x ++ a) "/" = Str.endswith a "/")
      by (intros x; now apply endswith_sep_app).
    assert (Hnil : forall x, (x ++ a =? "") = false).
    { intros x. apply String.eqb_neq. intros H. apply append_eq_nil in H. tauto. }
    destruct (Str.endswith cwd "/") eqn:Hce.
    + rewrite Hnil, Hend. cbn [orb].
      destruct (Str.endswith a "/"); now rewrite !append_assoc.
    + replace (cwd ++ "/" ++ a) with ((cwd ++ "/") ++ a)
        by (now rewrite append_assoc).
      rewrite Hnil, Hend. cbn [orb].
      destruct (Str.endswith a "/"); now rewrite !append_assoc.
Qed.

Lemma join_join_list (cwd : string) (names : list string) :
  Str.startswith cwd "/" = true ->
  Forall (fun n => valid_name n = true) names ->
  forall a,
    Str.startswith a "/" = false ->
    PosixPath.join cwd (PosixPath.join_list a names)
    = PosixPath.join_list (PosixPath.join cwd a) names.
Proof.
  intros Hcwd. induction 1 as [|n names Hv _ IH]; intros a Ha; [reflexivity|].
  cbn [PosixPath.join_list fold_left].
  unfold PosixPath.join_list in IH.
  rewrite IH by (now apply join_relative).
  now rewrite join_join.
Qed.

Lemma join_list_relative (names : list string) :
  Forall (fun n => valid_name n = true) names ->
  forall a, Str.startswith a "/" = false ->
            Str.startswith (PosixPath.join_list a names) "/" = false.
Proof.
  induction 1 as [|n names Hv _ IH]; intros a Ha; [exact Ha|].
  cbn [PosixPath.join_list fold_left]. apply IH. now apply join_relative.
Qed.

Lemma join_name_nonempty (a n : string) :
  valid_name n = true -> PosixPath.join a n <> "".
Proof.
  intros Hv. apply valid_name_inv in Hv. destruct Hv as [Hne [_ [_ Hn]]].
  unfold PosixPath.join. rewrite (not_absolute n Hn).
  destruct (_ || _); intros H; apply append_eq_nil in H; destruct H as [_ H];
    [tauto|]. apply append_eq_nil in H. tauto.
Qed.

Lemma join_list_nonempty (names : list string) (a : string) :
  Forall (fun n => valid_name n = true) names -> names <> [] ->
  PosixPath.join_list a names <> "".
Proof.
  intros Hall Hne. destruct names as [|n names] using rev_ind; [congruence|].
  apply Forall_app in Hall. destruct Hall as [_ Hn].
  inversion Hn; subst. unfold PosixPath.join_list.
  rewrite fold_left_app. cbn [fold_left]. now apply join_name_nonempty.
Qed.

(** [os.path.relpath] gives back the names joined below the start. *)
Lemma relpath_join_list (cwd start : string) (name : string)
      (names : list string) :
  Str.startswith cwd "/" = true ->
  Forall (fun n => valid_name n = true) (name :: names) ->
  PosixPath.relpath cwd (PosixPath.join_list start (name :: names)) start
  = Ok (PosixPath.join_list name names).
Proof.
  intros Hcwd Hall. unfold PosixPath.relpath.
  replace (PosixPath.join_list start (name :: names) =? "") with false
    by (symmetry; apply String.eqb_neq, join_list_nonempty;
        [exact Hall | discriminate]).
  assert (Habs : exists root,
             Str.startswith root "/" = true
             /\ PosixPath.abspath cwd start = PosixPath.normpath root
             /\ PosixPath.abspath cwd (PosixPath.join_list start (name :: names))
                = PosixPath.normpath (PosixPath.join_list root (name :: names))).
  { unfold PosixPath.abspath, PosixPath.isabs.
    destruct (Str.startswith start "/") eqn:Hs.
    - exists start. rewrite (join_list_absolute _ Hall _ Hs). auto.
    - exists (PosixPath.join cwd start).
      rewrite (join_list_relative _ Hall _ Hs).
      rewrite (join_join_list _ _ Hcwd Hall _ Hs). split; [|auto].
      unfold PosixPath.join. rewrite Hs.
      apply startswith_inv in Hcwd. destruct Hcwd as [rest ->].
      destruct (_ || _); cbn [append]; now rewrite startswith_sep_cons. }
  destruct Habs as [root [Hroot [-> ->]]].
  rewrite (normpath_components _ Hroot).
  rewrite (normpath_components _ (join_list_absolute _ Hall _ Hroot)).
  rewrite (normpath_fold_join_list _ _ Hall).
  rewrite common_prefix_length_app, Nat.sub_diag, skipn_app, skipn_all,
    Nat.sub_diag.
  reflexivity.
Qed.

Lemma join_list_concat (name : string) (names : list string) :
  Forall (fun n => valid_name n = true) (name :: names) ->
  PosixPath.join_list name names = String.concat "/" (name :: names).
Proof.
  intros Hall.
  assert (H : forall names prefix,
             Forall (fun n => valid_name n = true) (name :: names) ->
             PosixPath.join_list (prefix ++ name) names
             = prefix ++ String.concat "/" (name :: names)).
  { clear. intros names. revert name.
    induction names as [|n names IH]; intros name prefix Hall.
    - reflexivity.
    - inversion Hall as [|? ? Hv Hrest]; subst.
      inversion Hrest as [|? ? Hv' _]; subst.
      apply valid_name_inv in Hv. destruct Hv as [Hne [_ [_ Hn]]].
      cbn [PosixPath.join_list fold_left].
      assert (Hj : PosixPath.join (prefix ++ name) n
                   = (prefix ++ name ++ "/") ++ n).
      { unfold PosixPath.join.
        apply valid_name_inv in Hv'. destruct Hv' as [_ [_ [_ Hn']]].
        rewrite (not_absolute n Hn').
        replace (prefix ++ name =? "") with false
          by (symmetry; apply String.eqb_neq; intros H;
              apply append_eq_nil in H; tauto).
        rewrite (endswith_sep_app prefix name Hne), (endswith_sep_whole _ Hn).
        cbn [orb]. now rewrite !append_assoc. }
      rewrite Hj. fold (PosixPath.join_list ((prefix ++ name ++ "/") ++ n) names).
      rewrite (IH n _ Hrest).
      change (String.concat "/" (name :: n :: names))
        with (name ++ "/" ++ String.concat "/" (n :: names)).
      now rewrite !append_assoc. }
  exact (H names "" Hall).
Qed.

End RelpathFacts.

Lemma reaches_names (os : OS) (base : string) (i : nat) (dir : string) (d : nat) :
  valid_names os ->
  reaches os base i dir d ->
  exists names,
    Forall (fun n => valid_name n = true) names
    /\ length names + i = d
    /\ dir = PosixPath.join_list base names.
Proof.
  intros Hvalid. induction 1 as [base i | base i names entry dir d Hl Hin _ _ _ IH].
  - exists []. repeat split. constructor.
  - destruct IH as [below [Hall [Hlen ->]]].
    exists (entry :: below). split; [|split].
    + constructor; [exact (Hvalid _ _ _ Hl Hin) | exact Hall].
    + simpl. lia.
    + reflexivity.
Qed.

(** The path of a record, relative to the root, is the names that lead to
    it, joined. *)
Lemma record_relpath (os : OS) (base : string) (dir : string) (d : nat)
      (entry : string) :
  valid_names os ->
  Str.startswith (getcwd os) "/" = true ->
  visits os base 0 dir d entry ->
  exists names,
    length names = S d
    /\ PosixPath.join dir entry = PosixPath.join_list base names
    /\ PosixPath.relpath (getcwd os) (PosixPath.join dir entry) base
       = Ok (String.concat "/" names).
Proof.
  intros Hvalid Hcwd [Hreach [listed [Hl [Hin _]]]].
  destruct (reaches_names os _ _ _ _ Hvalid Hreach) as [names [Hall [Hlen ->]]].
  pose proof (Hvalid _ _ _ Hl Hin) as Hentry.
  assert (Hall' : Forall (fun n => valid_name n = true) (names ++ [entry]))
    by (apply Forall_app; split; [exact Hall | now constructor]).
  assert (Hjoin : PosixPath.join (PosixPath.join_list base names) entry
                  = PosixPath.join_list base (names ++ [entry]))
    by (unfold PosixPath.join_list; now rewrite fold_left_app).
  exists (names ++ [entry])%list. split; [|split].
  - rewrite length_app. simpl. lia.
  - exact Hjoin.
  - rewrite Hjoin. destruct (names ++ [entry])%list as [|n rest] eqn:Heq;
      [now destruct names|].
    rewrite (relpath_join_list _ _ _ _ Hcwd Hall').
    now rewrite (join_list_concat _ _ Hall').
Qed.

Lemma make_os_valid_names (dirs : list (string * list string))
      (files : list (string * string)) :
  forallb (fun d => forallb valid_name (snd d)) dirs = true ->
  valid_names (Sample.make_os dirs files).
Proof.
  intros Hall path names entry Hl Hin. cbn [Sample.make_os listdir] in Hl.
  destruct (Sample.assoc path dirs) as [ns|] eqn:Ha.
  - injection Hl as <-.
    assert (Hd : In (path, ns) dirs).
    { clear -Ha. induction dirs as [|[k w] dirs IH]; simpl in *; [discriminate|].
      destruct (String.eqb_spec k path) as [-> | _].
      - injection Ha as ->. now left.
      - right. now apply IH. }
    rewrite forallb_forall in Hall. specialize (Hall _ Hd). simpl in Hall.
    rewrite forallb_forall in Hall. now apply Hall.
  - destruct (Sample.assoc path files); discriminate.
Qed.

Lemma valid_name_relative (n : string) :
  valid_name n = true -> Str.startswith n "/" = false.
Proof. intros Hv. apply valid_name_inv in Hv. now apply not_absolute. Qed.

(** ** Systems the walk cannot tell apart *)

Lemma Permutation_filter_strings (f : string -> bool) (l1 l2 : list string) :
  Permutation l1 l2 -> Permutation (filter f l1) (filter f l2).
Proof.
  induction 1 as [| x l1 l2 Hp IH | x y l | l1 l2 l3 H12 IH12 H23 IH23]; simpl.
  - constructor.
  - destruct (f x); [now constructor | assumption].
  - destruct (f x), (f y); try apply Permutation_refl. apply perm_swap.
  - now apply Permutation_trans with (filter f l2).
Qed.

Lemma StronglySorted_filter (f : string -> bool) (l : list string) :
  StronglySorted (fun a b => String.leb a b = true) l ->
  StronglySorted (fun a b => String.leb a b = true) (filter f l).
Proof.
  induction 1 as [|a l Hs IH Ha]; simpl; [constructor|].
  destruct (f a); [|assumption].
  constructor; [assumption|].
  rewrite Forall_forall in *. intros x Hx.
  apply filter_In in Hx. now apply Ha.
Qed.

(** Skipping entries and sorting can be done in either order. *)
Lemma filter_sort (f : string -> bool) (l : list string) :
  filter f (StringSort.sort l) = StringSort.sort (filter f l).
Proof.
  apply sorted_permutation_unique.
  - apply StronglySorted_filter, sort_strongly_sorted.
  - apply sort_strongly_sorted.
  - eapply Permutation_trans; [|apply StringSort.Permuted_sort].
    apply Permutation_filter_strings, Permutation_sym, StringSort.Permuted_sort.
Qed.

(** The loop sees the entries that are not ignored only. *)
Lemma walk_entries_kept (os : OS)
      (recurse : string -> nat -> list FileRecord ->
                 result (string * list FileRecord))
      (base : string) (i : nat) (es : list string) :
  forall t acc,
    walk_entries os recurse base i es t acc
    = walk_entries os recurse base i (kept base es) t acc.
Proof.
  induction es as [|entry es IH]; intros t acc; [reflexivity|].
  unfold kept. cbn [filter walk_entries].
  destruct (should_ignore (PosixPath.join base entry)) eqn:Hig; cbn [negb].
  - apply IH.
  - cbn [walk_entries]. rewrite Hig.
    destruct (isdir os (PosixPath.join base entry)).
    + unfold bind. destruct (recurse _ _ _) as [[sub fp]|e]; [apply IH | reflexivity].
    + destruct (classify entry (PosixPath.join base entry)); apply IH.
Qed.

Lemma walk_entries_agree (os1 os2 : OS)
      (recurse1 recurse2 : string -> nat -> list FileRecord ->
                           result (string * list FileRecord))
      (base : string) (i : nat) (es : list string) :
  (forall entry,
      In entry es -> should_ignore (PosixPath.join base entry) = false ->
      isdir os1 (PosixPath.join base entry) = isdir os2 (PosixPath.join base entry)
      /\ forall acc, recurse1 (PosixPath.join base entry) (S i) acc
                     = recurse2 (PosixPath.join base entry) (S i) acc) ->
  forall t acc,
    walk_entries os1 recurse1 base i es t acc
    = walk_entries os2 recurse2 base i es t acc.
Proof.
  induction es as [|entry es IH]; intros H t acc; [reflexivity|].
  assert (IH' := IH (fun e Hin => H e (or_intror Hin))).
  cbn [walk_entries].
  destruct (should_ignore (PosixPath.join base entry)) eqn:Hig; [apply IH'|].
  destruct (H entry (or_introl eq_refl) Hig) as [Hd Hr].
  rewrite <- Hd, Hr.
  destruct (isdir os1 (PosixPath.join base entry)).
  - unfold bind. destruct (recurse2 _ _ _) as [[sub fp]|e]; [apply IH' | reflexivity].
  - destruct (classify entry (PosixPath.join base entry)); apply IH'.
Qed.

(** Two systems that differ on ignored paths only, or in the order of
    their listings, give the same walk. *)
Lemma walk_agree (os1 os2 : OS) (frames : nat) :
  forall base i acc,
    same_unless_ignored os1 os2 base ->
    walk os1 frames base i acc = walk os2 frames base i acc.
Proof.
  induction frames as [|frames IH]; intros base i acc [Hroot Hoff];
    [reflexivity|].
  cbn [walk]. unfold same_listing in Hroot.
  destruct (listdir os1 base) as [names1|e1], (listdir os2 base) as [names2|e2];
    try contradiction; [|now subst].
  rewrite (walk_entries_kept os1), (walk_entries_kept os2).
  unfold kept in *. rewrite !filter_sort.
  rewrite (sort_permutation _ _ Hroot).
  apply walk_entries_agree. intros entry Hin Hig.
  destruct (Hoff _ Hig) as [Hd Hl]. split; [exact Hd|].
  intros acc'. apply IH. split; [exact Hl | exact Hoff].
Qed.

Lemma pruned_same (os : OS) (base : string) :
  same_unless_ignored os (pruned os) base.
Proof.
  assert (H : forall path,
             same_listing path (listdir os path) (listdir (pruned os) path)).
  { intros path. simpl. destruct (listdir os path) as [names|e]; simpl; [|reflexivity].
    unfold kept at 2. unfold kept at 2.
    induction names as [|n names IH]; simpl; [constructor|].
    destruct (should_ignore (PosixPath.join path n)) eqn:Hig; simpl;
      [exact IH|]. rewrite Hig. simpl. now constructor. }
  split; [apply H|]. intros path _. split; [reflexivity | apply H].
Qed.

Lemma same_names_listing (base : string) (r1 r2 : result (list string)) :
  same_names r1 r2 -> same_listing base r1 r2.
Proof.
  destruct r1, r2; simpl; auto. apply Permutation_filter_strings.
Qed.

(** ** Loading and assembling *)

Section AssembleFacts.

Variable os : OS.

Lemma get_local_file_content_total (path : string) :
  exists text, get_local_file_content os path = Ok text.
Proof.
  unfold get_local_file_content.
  destruct (read_text os path) as [text | e]; [now exists text|].
  destruct (exn_type e); now eexists.
Qed.

Lemma relpath_total (cwd path start : string) :
  path <> "" -> exists rel, PosixPath.relpath cwd path start = Ok rel.
Proof.
  intros Hne. unfold PosixPath.relpath.
  apply String.eqb_neq in Hne. rewrite Hne.
  destruct (_ ++ _)%list; now eexists.
Qed.

Lemma find_readme_total (base : string) (names : list string) :
  forall possible_readme,
  exists found, find_readme os base names possible_readme = Ok found.
Proof.
  induction names as [|name names IH]; intros possible_readme; simpl.
  - now eexists.
  - destruct (path_exists os (PosixPath.join base name)); [|apply IH].
    destruct (get_local_file_content_total (PosixPath.join base name))
      as [text ->]. simpl. now eexists.
Qed.

Lemma readme_block_total (base : string) :
  exists block, readme_block os base = Ok block.
Proof.
  unfold readme_block.
  destruct (find_readme_total base ["README.md"; "README.MD"] "")
    as [[possible_readme readme_content] ->]. cbn [bind].
  destruct (truthy readme_content); [|now eexists].
  destruct readme_content; now eexists.
Qed.

Lemma render_record_total (base : string) (r : FileRecord) :
  snd (fst r) <> "" -> exists snippet, render_record os base r = Ok snippet.
Proof.
  destruct r as [[indent path] kind]. simpl. intros Hne.
  destruct (get_local_file_content_total path) as [text ->].
  destruct (relpath_total (getcwd os) path base Hne) as [rel ->].
  simpl. now eexists.
Qed.

Lemma render_all_total (base : string) (records : list FileRecord) :
  Forall (fun r => snd (fst r) <> "") records ->
  exists snippets, render_all os base records = Ok snippets.
Proof.
  induction 1 as [|r records Hr _ IH]; simpl; [now eexists|].
  destruct (render_record_total base r Hr) as [snippet ->].
  destruct IH as [rest ->]. simpl. now eexists.
Qed.

(** The loop of lines 138-151 sorts the snippets into their groups. *)
Lemma collect_sections_groups (base : string) (records : list FileRecord) :
  forall snippets build_section source_section test_section,
    render_all os base records = Ok snippets ->
    collect_sections os base records build_section source_section test_section
    = Ok ((build_section ++ group BUILD_CONFIG snippets)%list,
          (source_section ++ group SOURCE snippets)%list,
          (test_section ++ group TEST snippets)%list).
Proof.
  induction records as [|[[indent path] kind] records IH];
    intros snippets b s t H; simpl in H.
  - injection H as <-. unfold group. simpl. now rewrite !app_nil_r.
  - simpl. unfold bind in *.
    destruct (get_local_file_content os path) as [text|e]; [|discriminate].
    destruct (PosixPath.relpath (getcwd os) path base) as [rel|e]; [|discriminate].
    destruct (render_all os base records) as [rest|e]; [|discriminate].
    injection H as <-.
    destruct kind; rewrite (IH rest _ _ _ eq_refl); unfold group; simpl;
      now rewrite <- ?app_assoc.
Qed.

Lemma emit_section_text (formatted_string header : string)
      (section : list string) :
  emit_section formatted_string header section
  = formatted_string ++ section_text header section.
Proof.
  destruct section; simpl; [now rewrite append_nil_r | reflexivity].
Qed.

(** The document, from its README block, its tree and its snippets. *)
Lemma retrieve_local_repo_info_assembles (base readme tree : string)
      (records : list FileRecord) (snippets : list (Kind * string)) :
  readme_block os base = Ok readme ->
  build_directory_tree_local os base 0 [] = Ok (tree, records) ->
  render_all os base records = Ok snippets ->
  retrieve_local_repo_info os base
  = Ok (readme ++ "Directory Structure:" ++ NL ++ tree ++ NL
          ++ section_text BUILD_HEADER (group BUILD_CONFIG snippets)
          ++ section_text SOURCE_HEADER (group SOURCE snippets)
          ++ section_text TEST_HEADER (group TEST snippets)).
Proof.
  intros Hr Hw Hs. unfold retrieve_local_repo_info.
  rewrite Hr, Hw. cbn [bind].
  rewrite (collect_sections_groups base records snippets [] [] [] Hs).
  cbn [bind app]. rewrite !emit_section_text, !append_assoc. reflexivity.
Qed.

Lemma reaches_nonempty (base : string) (i : nat) (dir : string) (d : nat) :
  reaches os base i dir d -> base <> "" -> dir <> "".
Proof.
  induction 1; intros Hne; [assumption|]. now apply IHreaches, join_nonempty.
Qed.

Lemma walk_records_nonempty (frames : nat) (base : string)
      (res : string * list FileRecord) :
  base <> "" ->
  walk os frames base 0 [] = Ok res ->
  Forall (fun r => snd (fst r) <> "") (snd res).
Proof.
  intros Hne Hw. apply walk_returns_visited in Hw.
  destruct Hw as [lines [new [_ [Hr [_ Hn]]]]]. rewrite Hr. simpl.
  apply Forall_forall. intros r Hin. apply Hn in Hin.
  destruct Hin as [dir [d [entry [kind [[Hreach _] [_ [_ ->]]]]]]]. simpl.
  apply join_nonempty. now apply reaches_nonempty in Hreach.
Qed.

(** A safe scan of a root with a name returns a document. *)
Lemma retrieve_local_repo_info_total (base : string) :
  safe os base 0 (recursion_limit os) -> base <> "" ->
  exists document, retrieve_local_repo_info os base = Ok document.
Proof.
  intros Hsafe Hne.
  destruct (readme_block_total base) as [readme Hr].
  destruct (walk_total os _ base 0 [] Hsafe) as [[tree records] Hw].
  destruct (render_all_total base records) as [snippets Hs].
  - exact (walk_records_nonempty _ _ _ Hne Hw).
  - eexists. exact (retrieve_local_repo_info_assembles _ _ _ _ _ Hr Hw Hs).
Qed.

End AssembleFacts.

(** ** The loop over a list of entries in two parts *)

Lemma walk_entries_app (os : OS)
      (recurse : string -> nat -> list FileRecord ->
                 result (string * list FileRecord))
      (base : string) (i : nat) (es1 es2 : list string) :
  forall t acc,
    walk_entries os recurse base i (es1 ++ es2) t acc
    = '(t', acc') <- walk_entries os recurse base i es1 t acc ;;
      walk_entries os recurse base i es2 t' acc'.
Proof.
  induction es1 as [|entry es1 IH]; intros t acc; [reflexivity|].
  cbn [app walk_entries].
  destruct (should_ignore (PosixPath.join base entry)); [apply IH|].
  destruct (isdir os (PosixPath.join base entry)).
  - destruct (recurse (PosixPath.join base entry) (S i) acc) as [[sub fp]|e];
      cbn [bind]; [apply IH | reflexivity].
  - destruct (classify entry (PosixPath.join base entry)); apply IH.
Qed.

(** ** Exceptions that pass through the walk *)

Lemma walk_entries_raises (os : OS)
      (recurse : string -> nat -> list FileRecord ->
                 result (string * list FileRecord))
      (base : string) (i : nat) (e : exn) :
  forall es t acc,
    walk_entries os recurse base i es t acc = Raise e ->
    exists entry acc',
      In entry es
      /\ should_ignore (PosixPath.join base entry) = false
      /\ isdir os (PosixPath.join base entry) = true
      /\ recurse (PosixPath.join base entry) (S i) acc' = Raise e.
Proof.
  induction es as [|entry es IH]; intros t acc H; cbn [walk_entries] in H;
    [discriminate|].
  assert (Hrest : forall t' acc',
             walk_entries os recurse base i es t' acc' = Raise e ->
             exists entry0 acc'',
               In entry0 (entry :: es)
               /\ should_ignore (PosixPath.join base entry0) = false
               /\ isdir os (PosixPath.join base entry0) = true
               /\ recurse (PosixPath.join base entry0) (S i) acc'' = Raise e).
  { intros t' acc' H'. destruct (IH _ _ H') as [e0 [a0 [Hin Hrest]]].
    exists e0, a0. split; [now right | exact Hrest]. }
  destruct (should_ignore (PosixPath.join base entry)) eqn:Hig; [eauto|].
  destruct (isdir os (PosixPath.join base entry)) eqn:Hd.
  - destruct (recurse (PosixPath.join base entry) (S i) acc)
      as [[sub fp]|e'] eqn:Hcall; cbn [bind] in H; [eauto|].
    injection H as ->. exists entry, acc. repeat split; auto. now left.
  - destruct (classify entry (PosixPath.join base entry)); eauto.
Qed.

Lemma walk_raises (os : OS) (frames : nat) (e : exn) :
  forall base i acc,
    walk os frames base i acc = Raise e ->
    (exn_type e = RecursionError
     /\ exists dir d, reaches os base i dir d /\ d = i + frames)
    \/ exists dir d,
        reaches os base i dir d
        /\ listdir os dir = Raise e
        /\ listing_error_caught e = false.
Proof.
  induction frames as [|frames IH]; intros base i acc H; cbn [walk] in H.
  - left. split; [now injection H as <-|].
    exists base, i. split; [constructor | lia].
  - destruct (listdir os base) as [names|e'] eqn:Hl.
    + apply walk_entries_raises in H.
      destruct H as [entry [acc' [Hin [Hig [Hd Hcall]]]]].
      assert (Hdown : forall dir d,
                 reaches os (PosixPath.join base entry) (S i) dir d ->
                 reaches os base i dir d).
      { intros dir d Hr. apply reaches_down with names entry; auto.
        now apply sort_In. }
      destruct (IH _ _ _ Hcall)
        as [[Hty [dir [d [Hr Heq]]]] | [dir [d [Hr He]]]].
      * left. split; [exact Hty|]. exists dir, d.
        split; [now apply Hdown | lia].
      * right. exists dir, d. split; [now apply Hdown | exact He].
    + destruct (listing_error_caught e') eqn:Hc; [discriminate|].
      injection H as ->. right. exists base, i. repeat split; auto.
      constructor.
Qed.

(** ** Sorted names and the records so far *)

Lemma string_ltb_not_leb (a b : string) :
  String.ltb a b = true -> String.leb b a = false.
Proof.
  unfold String.ltb, String.leb. rewrite (String.compare_antisym a b).
  destruct (String.compare b a); simpl; congruence.
Qed.

Lemma sorted_front (a : list string) (x : string) (b : list string) (y : string) :
  StronglySorted (fun u v => String.leb u v = true) (a ++ x :: b) ->
  In y a -> String.leb y x = true.
Proof.
  induction a as [|z a IH]; intros Hs Hin; [destruct Hin|].
  cbn [app] in Hs. inversion Hs as [|? ? Hs' Hall]; subst.
  destruct Hin as [-> | Hin]; [|now apply IH].
  rewrite Forall_forall in Hall. apply Hall, in_or_app. right. now left.
Qed.

(** In a sorted list the smaller of two names stands first. *)
Lemma sorted_before (l : list string) (e1 e2 : string) :
  StronglySorted (fun u v => String.leb u v = true) l ->
  In e1 l -> In e2 l -> String.ltb e1 e2 = true ->
  exists l1 l2 l3, l = (l1 ++ e1 :: l2 ++ e2 :: l3)%list.
Proof.
  intros Hs H1 H2 Hlt. pose proof (string_ltb_not_leb _ _ Hlt) as Hnle.
  apply in_split in H1. destruct H1 as [a [b ->]].
  apply in_app_or in H2. destruct H2 as [H2 | [<- | H2]].
  - rewrite (sorted_front _ _ _ _ Hs H2) in Hnle. discriminate.
  - destruct (String.leb_total e1 e1) as [H | H]; rewrite H in Hnle;
      discriminate.
  - apply in_split in H2. destruct H2 as [l2 [l3 ->]]. now exists a, l2, l3.
Qed.

Lemma walk_entries_extends (os : OS) (frames : nat) (base : string) (i : nat)
      (es : list string) (t : string) (acc : list FileRecord)
      (res : string * list FileRecord) :
  walk_entries os (walk os frames) base i es t acc = Ok res ->
  exists new, snd res = (acc ++ new)%list.
Proof.
  intros H. apply walk_entries_returns in H.
  - destruct H as [ls [new [_ [Hr _]]]]. now exists new.
  - intros p acc' res'. apply walk_returns_visited.
Qed.

(** What a reached directory returns begins what the whole walk
    returns. *)
Lemma walk_reaches_prefix (os : OS) (base : string) (i : nat) (dir : string)
      (d : nat) :
  reaches os base i dir d ->
  forall frames acc t recs,
    walk os frames base i acc = Ok (t, recs) ->
    exists frames' acc' t' recs' later,
      walk os frames' dir d acc' = Ok (t', recs')
      /\ recs = (recs' ++ later)%list.
Proof.
  induction 1 as [base i | base i names entry dir d Hl Hin Hig Hd _ IH];
    intros frames acc t recs H.
  - exists frames, acc, t, recs, []. split; [exact H | now rewrite app_nil_r].
  - destruct frames as [|frames]; [discriminate|].
    cbn [walk] in H. rewrite Hl in H.
    apply sort_In, in_split in Hin. destruct Hin as [s1 [s2 Hsplit]].
    rewrite Hsplit, walk_entries_app in H.
    destruct (walk_entries os (walk os frames) base i s1 "" acc)
      as [[t1 a1]|e]; cbn [bind] in H; [|discriminate].
    cbn [walk_entries] in H. rewrite Hig, Hd in H.
    destruct (walk os frames (PosixPath.join base entry) (S i) a1)
      as [[sub a2]|e] eqn:Hcall; cbn [bind] in H; [|discriminate].
    destruct (walk_entries_extends _ _ _ _ _ _ _ _ H) as [later2 Hr].
    simpl in Hr. subst recs.
    destruct (IH _ _ _ _ Hcall) as [frames' [acc' [t' [recs' [later [Hw ->]]]]]].
    exists frames', acc', t', recs', (later ++ later2)%list.
    split; [exact Hw | now rewrite app_assoc].
Qed.

(** ** A reached directory within the whole walk *)

Lemma at_line_start_app (a b : string) :
  at_line_start a -> at_line_start b -> at_line_start (a ++ b).
Proof.
  intros Ha [-> | Hb]; [now rewrite append_nil_r|].
  right. apply endswith_inv in Hb. destruct Hb as [pre ->].
  rewrite <- append_assoc. apply endswith_app.
Qed.

Lemma at_line_start_line (a : string) (d : nat) (entry : string)
      (is_dir : bool) :
  at_line_start (a ++ entry_line d entry is_dir).
Proof.
  right. destruct (endswith_inv _ _ (entry_line_ends d entry is_dir))
    as [pre ->].
  rewrite <- append_assoc. apply endswith_app.
Qed.

(** The tree of a call begins and ends at line starts. *)
Lemma walk_tree_at_line_start (os : OS) (frames : nat) (base : string)
      (i : nat) (acc : list FileRecord) (res : string * list FileRecord) :
  walk os frames base i acc = Ok res -> at_line_start (fst res).
Proof.
  intros H. apply walk_returns_visited in H.
  destruct H as [ls [new [-> [_ [Hl _]]]]].
  apply join_all_ends. intros l Hin. apply Hl in Hin.
  destruct Hin as [dir [d [entry [_ ->]]]]. apply entry_line_ends.
Qed.

Lemma walk_entries_tree (os : OS) (frames : nat) (base : string) (i : nat)
      (es : list string) (t : string) (acc : list FileRecord)
      (res : string * list FileRecord) :
  walk_entries os (walk os frames) base i es t acc = Ok res ->
  exists added, fst res = t ++ added /\ at_line_start added.
Proof.
  intros H. apply walk_entries_returns in H;
    [|intros p acc' res'; apply walk_returns_visited].
  destruct H as [ls [new [Ht [_ [Hl _]]]]].
  exists (Str.join_all ls). split; [exact Ht|].
  apply join_all_ends. intros l Hin. apply Hl in Hin.
  destruct Hin as [entry [_ [_ [-> | [_ [dir [d [e [_ ->]]]]]]]]];
    apply entry_line_ends.
Qed.

(** The step of the loop for an entry that is not ignored: its line, then
    what lies below it. *)
Lemma walk_entries_step (os : OS) (frames : nat) (base : string) (i : nat)
      (entry : string) (es : list string) (t : string)
      (acc : list FileRecord) (res : string * list FileRecord) :
  should_ignore (PosixPath.join base entry) = false ->
  walk_entries os (walk os frames) base i (entry :: es) t acc = Ok res ->
  exists below acc',
    at_line_start below
    /\ walk_entries os (walk os frames) base i es
         (t ++ entry_line i entry (isdir os (PosixPath.join base entry))
            ++ below) acc'
       = Ok res.
Proof.
  intros Hig H. cbn [walk_entries] in H. rewrite Hig in H.
  destruct (isdir os (PosixPath.join base entry)).
  - destruct (walk os frames (PosixPath.join base entry) (S i) acc)
      as [[sub fp]|e] eqn:Hcall; cbn [bind] in H; [|discriminate].
    exists sub, fp. split.
    + exact (walk_tree_at_line_start _ _ _ _ _ _ Hcall).
    + unfold entry_line. rewrite <- H. f_equal. now rewrite !append_assoc.
  - destruct (classify entry (PosixPath.join base entry)) as [kind|];
      eexists "", _; (split; [now left|]);
      unfold entry_line; rewrite <- H; f_equal;
      now rewrite !append_assoc, append_nil_r.
Qed.

(** A directory the walk reaches is walked within the frames left; its
    tree is a part of the whole tree, and its records begin the records
    of the whole walk. *)
Lemma walk_reaches_within (os : OS) (base : string) (i : nat) (dir : string)
      (d : nat) :
  reaches os base i dir d ->
  forall frames acc t recs,
    walk os frames base i acc = Ok (t, recs) ->
    exists frames' acc' t' recs' before after later,
      walk os frames' dir d acc' = Ok (t', recs')
      /\ frames' + d = frames + i
      /\ recs = (recs' ++ later)%list
      /\ t = before ++ t' ++ after
      /\ at_line_start before.
Proof.
  induction 1 as [base i | base i names entry dir d Hl Hin Hig Hd _ IH];
    intros frames acc t recs H.
  - exists frames, acc, t, recs, "", "", [].
    repeat split; [exact H | now rewrite app_nil_r
                   | cbn [append]; now rewrite append_nil_r | now left].
  - destruct frames as [|frames]; [discriminate|].
    cbn [walk] in H. rewrite Hl in H.
    apply sort_In, in_split in Hin. destruct Hin as [s1 [s2 Hsplit]].
    rewrite Hsplit, walk_entries_app in H.
    destruct (walk_entries os (walk os frames) base i s1 "" acc)
      as [[t1 a1]|e] eqn:H1; cbn [bind] in H; [|discriminate].
    destruct (walk_entries_tree _ _ _ _ _ _ _ _ H1) as [added1 [Ht1 Hstart1]].
    cbn [fst append] in Ht1. subst t1.
    cbn [walk_entries] in H. rewrite Hig, Hd in H.
    destruct (walk os frames (PosixPath.join base entry) (S i) a1)
      as [[sub a2]|e] eqn:Hcall; cbn [bind] in H; [|discriminate].
    destruct (walk_entries_extends _ _ _ _ _ _ _ _ H) as [later2 Hr].
    destruct (walk_entries_tree _ _ _ _ _ _ _ _ H) as [added2 [Ht2 _]].
    cbn [fst snd] in Hr, Ht2. subst recs t.
    destruct (IH _ _ _ _ Hcall)
      as [frames' [acc' [t' [recs' [before [after [later
            [Hw [Hframes [-> [-> Hstart]]]]]]]]]]].
    exists frames', acc', t', recs',
      (added1 ++ entry_line i entry true ++ before), (after ++ added2),
      (later ++ later2)%list.
    repeat split.
    + exact Hw.
    + lia.
    + now rewrite app_assoc.
    + unfold entry_line. now rewrite !append_assoc.
    + rewrite <- append_assoc. apply at_line_start_app; [|exact Hstart].
      apply at_line_start_line.
Qed.

(** A walk that returns was safe. *)
Lemma walk_ok_safe (os : OS) (frames : nat) (base : string) (i : nat)
      (acc : list FileRecord) (res : string * list FileRecord) :
  walk os frames base i acc = Ok res -> safe os base i frames.
Proof.
  intros H dir d Hreach. destruct res as [t recs].
  destruct (walk_reaches_within os _ _ _ _ Hreach _ _ _ _ H)
    as [frames' [acc' [t' [recs' [_ [_ [_ [Hw [Hframes _]]]]]]]]].
  destruct frames' as [|frames']; [discriminate|]. split; [lia|].
  intros e He. cbn [walk] in Hw. rewrite He in Hw.
  now destruct (listing_error_caught e).
Qed.

(** ** The order within a directory *)

(** The lines of two entries of one directory stand in the tree in the
    order of their names. *)
Lemma sibling_lines_in_order (os : OS) (base tree : string)
      (records : list FileRecord) (dir : string) (d : nat)
      (names : list string) (e1 e2 : string) :
  walk os (recursion_limit os) base 0 [] = Ok (tree, records) ->
  reaches os base 0 dir d ->
  listdir os dir = Ok names ->
  In e1 names -> In e2 names ->
  String.ltb e1 e2 = true ->
  should_ignore (PosixPath.join dir e1) = false ->
  should_ignore (PosixPath.join dir e2) = false ->
  exists a b c,
    tree = a ++ entry_line d e1 (isdir os (PosixPath.join dir e1))
             ++ b ++ entry_line d e2 (isdir os (PosixPath.join dir e2)) ++ c
    /\ at_line_start a
    /\ at_line_start
         (a ++ entry_line d e1 (isdir os (PosixPath.join dir e1)) ++ b).
Proof.
  intros Hw Hreach Hl Hin1 Hin2 Hlt Hig1 Hig2.
  destruct (walk_reaches_within os _ _ _ _ Hreach _ _ _ _ Hw)
    as [frames [acc [t [recs [before [after [later
          [Hdir [_ [_ [-> Hstart]]]]]]]]]]].
  destruct frames as [|frames]; [discriminate|].
  cbn [walk] in Hdir. rewrite Hl in Hdir.
  destruct (sorted_before (StringSort.sort names) e1 e2)
    as [s1 [s2 [s3 Hsplit]]];
    [apply sort_strongly_sorted | now apply sort_In | now apply sort_In
     | exact Hlt |].
  rewrite Hsplit, walk_entries_app in Hdir.
  destruct (walk_entries os (walk os frames) dir d s1 "" acc)
    as [[t1 a1]|e] eqn:H1; cbn [bind] in Hdir; [|discriminate].
  destruct (walk_entries_tree _ _ _ _ _ _ _ _ H1) as [added1 [Ht1 Hstart1]].
  cbn [fst append] in Ht1. subst t1.
  destruct (walk_entries_step _ _ _ _ _ _ _ _ _ Hig1 Hdir)
    as [below1 [acc1 [Hb1 Hrest]]].
  rewrite walk_entries_app in Hrest.
  destruct (walk_entries os (walk os frames) dir d s2 _ acc1)
    as [[t2 a2]|e] eqn:H2; cbn [bind] in Hrest; [|discriminate].
  destruct (walk_entries_tree _ _ _ _ _ _ _ _ H2) as [added2 [Ht2 Hstart2]].
  cbn [fst] in Ht2. subst t2.
  destruct (walk_entries_step _ _ _ _ _ _ _ _ _ Hig2 Hrest)
    as [below2 [acc2 [Hb2 Hlast]]].
  destruct (walk_entries_tree _ _ _ _ _ _ _ _ Hlast) as [added3 [Ht3 _]].
  cbn [fst] in Ht3. subst t.
  exists (before ++ added1), (below1 ++ added2), (below2 ++ added3 ++ after).
  split; [now rewrite !append_assoc|]. split.
  - now apply at_line_start_app.
  - replace ((before ++ added1)
               ++ entry_line d e1 (isdir os (PosixPath.join dir e1))
               ++ below1 ++ added2)
      with ((((before ++ added1)
                ++ entry_line d e1 (isdir os (PosixPath.join dir e1)))
               ++ below1) ++ added2)
      by (now rewrite !append_assoc).
    apply at_line_start_app; [|exact Hstart2].
    apply at_line_start_app; [|exact Hb1]. apply at_line_start_line.
Qed.

(** The records of two relevant files of one directory stand in the list
    in the order of their names. *)
Lemma sibling_records_in_order (os : OS) (base tree : string)
      (records : list FileRecord) (dir : string) (d : nat)
      (names : list string) (e1 e2 : string) (k1 k2 : Kind) :
  walk os (recursion_limit os) base 0 [] = Ok (tree, records) ->
  reaches os base 0 dir d ->
  listdir os dir = Ok names ->
  In e1 names -> In e2 names ->
  String.ltb e1 e2 = true ->
  should_ignore (PosixPath.join dir e1) = false ->
  should_ignore (PosixPath.join dir e2) = false ->
  isdir os (PosixPath.join dir e1) = false ->
  isdir os (PosixPath.join dir e2) = false ->
  classify e1 (PosixPath.join dir e1) = Some k1 ->
  classify e2 (PosixPath.join dir e2) = Some k2 ->
  exists l1 l2 l3,
    records
    = (l1 ++ (d, PosixPath.join dir e1, k1)
          :: l2 ++ (d, PosixPath.join dir e2, k2) :: l3)%list.
Proof.
  intros Hw Hreach Hl Hin1 Hin2 Hlt Hig1 Hig2 Hd1 Hd2 Hc1 Hc2.
  destruct (walk_reaches_prefix os _ _ _ _ Hreach _ _ _ _ Hw)
    as [frames [acc [t [recs [later [Hdir ->]]]]]].
  destruct frames as [|frames]; [discriminate|].
  cbn [walk] in Hdir. rewrite Hl in Hdir.
  destruct (sorted_before (StringSort.sort names) e1 e2)
    as [s1 [s2 [s3 Hsplit]]];
    [apply sort_strongly_sorted | now apply sort_In | now apply sort_In
     | exact Hlt |].
  rewrite Hsplit, walk_entries_app in Hdir.
  destruct (walk_entries os (walk os frames) dir d s1 "" acc)
    as [[t1 a1]|e]; cbn [bind] in Hdir; [|discriminate].
  cbn [walk_entries] in Hdir. rewrite Hig1, Hd1, Hc1 in Hdir.
  rewrite walk_entries_app in Hdir.
  destruct (walk_entries os (walk os frames) dir d s2 _ _)
    as [[t2 a2]|e] eqn:H2; cbn [bind] in Hdir; [|discriminate].
  destruct (walk_entries_extends _ _ _ _ _ _ _ _ H2) as [n2 Hr2].
  simpl in Hr2. subst a2.
  cbn [walk_entries] in Hdir. rewrite Hig2, Hd2, Hc2 in Hdir.
  destruct (walk_entries_extends _ _ _ _ _ _ _ _ Hdir) as [n3 Hr3].
  simpl in Hr3. subst recs.
  exists a1, n2, (n3 ++ later)%list.
  rewrite <- !app_assoc. reflexivity.
Qed.


(** * The claims *)

(** ** C1: the records are exactly the relevant files the walk reaches *)

(** C1.  When every directory the walk reaches can be listed (or fails to
    list in one of the two ways the walk catches) within the recursion
    limit, the walk returns a tree and a list of records such that a record
    [(d, path, kind)] is in the list iff [path] is a file entry that is
    listed in a directory reached from the root at depth [d], is not
    ignored and is relevant, [kind] being its classification by the rule of
    the Path Filter; every file entry visited, relevant or not, has its line
    in the tree; and the step for a file that is not relevant appends its
    line and leaves the records as they are. *)
Theorem walk_records_exactly_relevant_files (os : OS) (base : string) :
  safe os base 0 (recursion_limit os) ->
  exists tree records,
    build_directory_tree_local os base 0 [] = Ok (tree, records)
    /\ (forall d path kind,
           In (d, path, kind) records <->
           exists dir entry,
             visits os base 0 dir d entry
             /\ isdir os (PosixPath.join dir entry) = false
             /\ path = PosixPath.join dir entry
             /\ is_relevant entry = true
             /\ kind = classification entry path)
    /\ (forall dir d entry,
           visits os base 0 dir d entry ->
           isdir os (PosixPath.join dir entry) = false ->
           tree_has_line tree (Str.times INDENT d ++ entry ++ NL))
    /\ (forall recurse dir d entry entries tree_str file_paths,
           should_ignore (PosixPath.join dir entry) = false ->
           isdir os (PosixPath.join dir entry) = false ->
           is_relevant entry = false ->
           walk_entries os recurse dir d (entry :: entries) tree_str file_paths
           = walk_entries os recurse dir d entries
                          (tree_str ++ Str.times INDENT d ++ entry ++ NL)
                          file_paths).
Proof.
  intros Hsafe. unfold build_directory_tree_local.
  destruct (walk_total os _ base 0 [] Hsafe) as [[tree records] Hw].
  exists tree, records. split; [exact Hw|].
  pose proof (walk_returns_visited os _ _ _ _ _ Hw) as Hret.
  split; [|split].
  - destruct Hret as [lines [new [_ [Hr [_ Hn]]]]]. simpl in Hr. subst records.
    intros d path kind. rewrite Hn. unfold record_of. split.
    + intros [dir [d' [entry [k [Hv [Hf [Hc Heq]]]]]]].
      injection Heq as -> -> ->. exists dir, entry.
      rewrite classify_spec in Hc.
      destruct (is_relevant entry); [|discriminate].
      injection Hc as <-. auto.
    + intros [dir [entry [Hv [Hf [-> [Hrel ->]]]]]].
      exists dir, d, entry, (classification entry (PosixPath.join dir entry)).
      rewrite classify_spec, Hrel. auto.
  - intros dir d entry Hv Hf.
    pose proof (visited_line _ _ _ _ _ _ _ _ Hret Hv) as Hline.
    now rewrite Hf in Hline.
  - intros recurse dir d entry entries tree_str file_paths Hig Hf Hrel.
    cbn [walk_entries]. rewrite Hig, Hf, classify_spec, Hrel. reflexivity.
Qed.

Lemma walk_records_exactly_relevant_files_witness :
  safe Sample.os "proj" 0 (recursion_limit Sample.os)
  /\ exists tree records,
      build_directory_tree_local Sample.os "proj" 0 [] = Ok (tree, records)
      /\ (In (2, "proj/src/test/FooTest.java", TEST) records <->
          exists dir entry,
            visits Sample.os "proj" 0 dir 2 entry
            /\ isdir Sample.os (PosixPath.join dir entry) = false
            /\ "proj/src/test/FooTest.java" = PosixPath.join dir entry
            /\ is_relevant entry = true
            /\ TEST = classification entry "proj/src/test/FooTest.java").
Proof.
  assert (Hsafe : safe Sample.os "proj" 0 (recursion_limit Sample.os))
    by (apply scannable_safe; vm_compute; reflexivity).
  split; [exact Hsafe|].
  destruct (walk_records_exactly_relevant_files Sample.os "proj" Hsafe)
    as [tree [records [Hw [Hrec _]]]].
  exists tree, records. split; [exact Hw | apply Hrec].
Defined.

(** ** C2: the precedence of the classification *)

(** C2.  Lines 81-91 give BUILD_CONFIG to every special build file name,
    whatever its suffix and whatever the path; to a relevant name that is
    not special they give TEST when some segment of the path is "test" in
    any case and SOURCE otherwise.  So pom.xml is BUILD_CONFIG, also below
    a test directory, and project/src/test/java/Foo.java is TEST. *)
Theorem classify_precedence :
  (forall entry full_path,
      In entry SPECIAL_BUILD_FILES ->
      classify entry full_path = Some BUILD_CONFIG)
  /\ (forall entry full_path,
         ~ In entry SPECIAL_BUILD_FILES ->
         Str.endswith_any entry RELEVANT_ENDINGS = true ->
         (exists seg, In seg (Str.split PosixPath.sep full_path)
                      /\ Str.lower seg = "test") ->
         classify entry full_path = Some TEST)
  /\ (forall entry full_path,
         ~ In entry SPECIAL_BUILD_FILES ->
         Str.endswith_any entry RELEVANT_ENDINGS = true ->
         ~ (exists seg, In seg (Str.split PosixPath.sep full_path)
                        /\ Str.lower seg = "test") ->
         classify entry full_path = Some SOURCE)
  /\ classify "pom.xml" "project/pom.xml" = Some BUILD_CONFIG
  /\ Str.endswith_any "pom.xml" RELEVANT_ENDINGS = true
  /\ classify "pom.xml" "project/src/test/pom.xml" = Some BUILD_CONFIG
  /\ classify "Foo.java" "project/src/test/java/Foo.java" = Some TEST
  /\ classify "Foo.java" "project/src/TEST/java/Foo.java" = Some TEST
  /\ classify "Foo.java" "project/src/main/java/Foo.java" = Some SOURCE.
Proof.
  repeat split; try reflexivity.
  - intros entry full_path H. unfold classify.
    apply mem_In in H. now rewrite H.
  - intros entry full_path Hs He Ht. unfold classify.
    destruct (Str.mem entry SPECIAL_BUILD_FILES) eqn:Hm;
      [apply mem_In in Hm; contradiction|].
    rewrite He. apply test_segment_spec in Ht. now rewrite Ht.
  - intros entry full_path Hs He Ht. unfold classify.
    destruct (Str.mem entry SPECIAL_BUILD_FILES) eqn:Hm;
      [apply mem_In in Hm; contradiction|].
    rewrite He.
    destruct (Str.mem "test" (Str.split PosixPath.sep (Str.lower full_path)))
      eqn:Hmem; [|reflexivity].
    apply test_segment_spec in Hmem. contradiction.
Qed.

Lemma classify_precedence_witness :
  classify "Dockerfile" "app/test/Dockerfile" = Some BUILD_CONFIG
  /\ classify "A.kt" "app/Test/A.kt" = Some TEST
  /\ classify "A.kt" "app/testing/A.kt" = Some SOURCE.
Proof.
  destruct classify_precedence as [Hb [Ht [Hs _]]].
  split; [|split].
  - apply Hb. simpl. tauto.
  - apply Ht.
    + simpl. intuition discriminate.
    + reflexivity.
    + exists "Test". split; [simpl; tauto | reflexivity].
  - apply Hs.
    + simpl. intuition discriminate.
    + reflexivity.
    + intros [seg [Hin Hl]]. simpl in Hin.
      destruct Hin as [<- | [<- | [<- | []]]]; discriminate.
Defined.

(** ** C3: ignoring goes by whole segments *)

(** C3.  A path is skipped iff one of its segments is a member of the
    ignore set: line 67 decides exactly that; the step for an ignored entry
    leaves the tree and the records as they are and makes no recursive
    call; two systems that differ on ignored paths only give the same walk;
    no record of a walk has an ignored path, and every entry that is not
    ignored, listed in a directory the walk reaches, has its line in the
    tree.  "subtarget" is not ignored below a path that is not; "target"
    is ignored, and so is every path below an ignored one. *)
Theorem ignoring_is_segment_exact :
  (forall full_path,
      should_ignore full_path = true <->
      exists seg, In seg (Str.split PosixPath.sep full_path)
                  /\ In seg IGNORE_PATTERNS)
  /\ (forall os recurse base i entry entries tree_str file_paths,
         should_ignore (PosixPath.join base entry) = true ->
         walk_entries os recurse base i (entry :: entries) tree_str file_paths
         = walk_entries os recurse base i entries tree_str file_paths)
  /\ (forall os1 os2 base,
         same_unless_ignored os1 os2 base ->
         recursion_limit os1 = recursion_limit os2 ->
         build_directory_tree_local os1 base 0 []
         = build_directory_tree_local os2 base 0 [])
  /\ (forall os base tree records,
         build_directory_tree_local os base 0 [] = Ok (tree, records) ->
         (forall d path kind,
             In (d, path, kind) records -> should_ignore path = false)
         /\ (forall dir d entry,
                visits os base 0 dir d entry ->
                tree_has_line
                  tree (entry_line d entry (isdir os (PosixPath.join dir entry)))))
  /\ (forall base,
         should_ignore base = false ->
         should_ignore (PosixPath.join base "subtarget") = false)
  /\ (forall base, should_ignore (PosixPath.join base "target") = true)
  /\ (forall path entry,
         Str.startswith entry "/" = false ->
         should_ignore path = true ->
         should_ignore (PosixPath.join path entry) = true).
Proof.
  split; [exact should_ignore_spec|].
  split; [intros os recurse base i entry entries t acc Hig;
          cbn [walk_entries]; now rewrite Hig|].
  split; [intros os1 os2 base Hsame Hlim; unfold build_directory_tree_local;
          rewrite Hlim; now apply walk_agree|].
  split; [|split; [|split]].
  - intros os base tree records Hw.
    pose proof (walk_returns_visited os _ _ _ _ _ Hw) as Hret. split.
    + destruct Hret as [lines [new [_ [Hr [_ Hn]]]]]. simpl in Hr. subst records.
      intros d path kind Hin. apply Hn in Hin.
      destruct Hin as [dir [d' [entry [k [[_ [names [_ [_ Hig]]]] [_ [_ Heq]]]]]]].
      now injection Heq as -> -> ->.
    + intros dir d entry Hv.
      exact (visited_line _ _ _ _ _ _ _ _ Hret Hv).
  - intros base Hbase.
    destruct (should_ignore (PosixPath.join base "subtarget")) eqn:Hig;
      [|reflexivity].
    apply should_ignore_spec in Hig. destruct Hig as [seg [Hseg Hpat]].
    apply join_segments_inv in Hseg; [|reflexivity].
    destruct Hseg as [Hseg | Hseg].
    + rewrite <- Hbase. symmetry. apply should_ignore_spec. now exists seg.
    + simpl in Hseg. destruct Hseg as [<- | []].
      apply mem_In in Hpat. discriminate.
  - intros base. apply should_ignore_spec. exists "target". split.
    + apply join_entry_segments; [reflexivity | simpl; tauto].
    + simpl. tauto.
  - intros path entry. apply should_ignore_join.
Qed.

Lemma ignoring_is_segment_exact_witness :
  should_ignore "proj/target/Gen.java" = true
  /\ build_directory_tree_local Sample.os "proj" 0 []
     = build_directory_tree_local (pruned Sample.os) "proj" 0 []
  /\ should_ignore "proj/subtarget" = false
  /\ should_ignore (PosixPath.join "proj/target" "classes") = true
  /\ (forall d path kind,
         In (d, path, kind)
            [(0, "proj/README.md", SOURCE); (0, "proj/pom.xml", BUILD_CONFIG);
             (1, "proj/src/Main.java", SOURCE);
             (2, "proj/src/test/FooTest.java", TEST)] ->
         should_ignore path = false).
Proof.
  destruct ignoring_is_segment_exact as [Hspec [_ [Hsame [Hrec [Hsub [_ Hdown]]]]]].
  split; [|split; [|split; [|split]]].
  - apply Hspec. exists "target". split; simpl; tauto.
  - apply Hsame; [apply pruned_same | reflexivity].
  - apply (Hsub "proj"). reflexivity.
  - apply Hdown; reflexivity.
  - apply (Hrec Sample.os "proj" _ _ eq_refl).
Defined.

(** ** C4: which failures the run survives *)

(** C4 as stated fails: scanning a root that does not exist raises
    FileNotFoundError, from the walk and from the assembly. *)
Lemma missing_root_aborts_run :
  build_directory_tree_local Sample.os "nowhere" 0 []
  = Raise (Sample.no_such "nowhere")
  /\ retrieve_local_repo_info Sample.os "nowhere"
     = Raise (Sample.no_such "nowhere")
  /\ ~ (exists document,
           retrieve_local_repo_info Sample.os "nowhere" = Ok document).
Proof.
  split; [reflexivity|]. split; [reflexivity|].
  intros [document H]. discriminate.
Qed.

(** C4, amended.  A directory whose listing raises NotADirectoryError or
    PermissionError yields an empty subtree and leaves the records as they
    are, and loading a file that cannot be read yields a placeholder text;
    so when every directory the walk reaches lists, or fails in one of
    these two ways, within the recursion limit, the walk returns, and so
    does the assembly for a root path that is not empty.  A listing that
    fails in another way is raised by the call it fails in, and when this
    happens to the root or to any directory the walk reaches, the walk and
    the assembly raise: the same exception, which is a RecursionError of a
    call at the recursion limit or the uncaught exception of the listing
    of a reached directory.  The walk returns only when every reached
    directory is within the limit and lists or fails in a caught way. *)
Theorem caught_failures_recovered_locally (os : OS) (base : string) :
  (forall frames dir indent file_paths e,
      listdir os dir = Raise e -> listing_error_caught e = true ->
      walk os (S frames) dir indent file_paths = Ok ("", file_paths))
  /\ (forall path, exists text, get_local_file_content os path = Ok text)
  /\ (safe os base 0 (recursion_limit os) ->
      exists tree records,
        build_directory_tree_local os base 0 [] = Ok (tree, records))
  /\ (safe os base 0 (recursion_limit os) -> base <> "" ->
      exists document, retrieve_local_repo_info os base = Ok document)
  /\ (forall e,
         listdir os base = Raise e -> listing_error_caught e = false ->
         recursion_limit os <> 0 ->
         build_directory_tree_local os base 0 [] = Raise e
         /\ retrieve_local_repo_info os base = Raise e)
  /\ (forall frames dir indent file_paths e,
         listdir os dir = Raise e -> listing_error_caught e = false ->
         walk os (S frames) dir indent file_paths = Raise e)
  /\ (forall dir d e,
         reaches os base 0 dir d ->
         listdir os dir = Raise e -> listing_error_caught e = false ->
         exists e',
           build_directory_tree_local os base 0 [] = Raise e'
           /\ retrieve_local_repo_info os base = Raise e'
           /\ ((exn_type e' = RecursionError
                /\ exists dir' d',
                    reaches os base 0 dir' d' /\ d' = recursion_limit os)
               \/ exists dir' d',
                   reaches os base 0 dir' d'
                   /\ listdir os dir' = Raise e'
                   /\ listing_error_caught e' = false))
  /\ (forall tree records,
         build_directory_tree_local os base 0 [] = Ok (tree, records) ->
         safe os base 0 (recursion_limit os))
  /\ (forall path e,
         read_text os path = Raise e ->
         get_local_file_content os path
         = Ok (match exn_type e with
               | UnicodeDecodeError =>
                   "Binary or non-UTF8 file, cannot display text content."
               | _ => "Error reading file: " ++ exn_str e
               end)).
Proof.
  assert (Hdoc : forall e,
             build_directory_tree_local os base 0 [] = Raise e ->
             retrieve_local_repo_info os base = Raise e).
  { intros e Hw. unfold retrieve_local_repo_info.
    destruct (readme_block_total os base) as [readme ->]. cbn [bind].
    now rewrite Hw. }
  split; [|split; [|split; [|split; [|split; [|split; [|split; [|split]]]]]]].
  - intros frames dir indent file_paths e Hl Hc. cbn [walk]. now rewrite Hl, Hc.
  - apply get_local_file_content_total.
  - intros Hsafe. destruct (walk_total os _ base 0 [] Hsafe) as [[tree records] Hw].
    now exists tree, records.
  - apply retrieve_local_repo_info_total.
  - intros e Hl Hc Hlim.
    assert (Hw : build_directory_tree_local os base 0 [] = Raise e).
    { unfold build_directory_tree_local.
      destruct (recursion_limit os) as [|frames]; [congruence|].
      cbn [walk]. now rewrite Hl, Hc. }
    split; [exact Hw | exact (Hdoc e Hw)].
  - intros frames dir indent file_paths e Hl Hc. cbn [walk]. now rewrite Hl, Hc.
  - intros dir d e Hreach Hl Hc.
    destruct (build_directory_tree_local os base 0 []) as [res|e'] eqn:Hw.
    + apply walk_ok_safe in Hw. destruct (Hw dir d Hreach) as [_ Hcaught].
      rewrite (Hcaught e Hl) in Hc. discriminate.
    + exists e'. split; [reflexivity|]. split; [exact (Hdoc e' eq_refl)|].
      apply walk_raises in Hw.
      destruct Hw as [[Hty [dir' [d' [Hr Hd]]]] | Hlist]; [left | now right].
      split; [exact Hty|]. now exists dir', d'.
  - intros tree records Hw. exact (walk_ok_safe _ _ _ _ _ _ Hw).
  - intros path e Hr. unfold get_local_file_content. rewrite Hr.
    now destruct (exn_type e).
Qed.

Lemma caught_failures_recovered_locally_witness :
  walk Samples.locked 1 "proj/secret" 1 [] = Ok ("", [])
  /\ (exists tree records,
         build_directory_tree_local Samples.locked "proj" 0 []
         = Ok (tree, records))
  /\ (exists document,
         retrieve_local_repo_info Samples.locked "proj" = Ok document)
  /\ build_directory_tree_local Sample.os "nowhere" 0 []
     = Raise (Sample.no_such "nowhere")
  /\ walk Samples.broken 1 "proj/data" 1 [] = Raise Samples.io_error
  /\ (exists e',
         build_directory_tree_local Samples.broken "proj" 0 [] = Raise e'
         /\ retrieve_local_repo_info Samples.broken "proj" = Raise e'
         /\ ((exn_type e' = RecursionError
              /\ exists dir' d',
                  reaches Samples.broken "proj" 0 dir' d'
                  /\ d' = recursion_limit Samples.broken)
             \/ exists dir' d',
                 reaches Samples.broken "proj" 0 dir' d'
                 /\ listdir Samples.broken dir' = Raise e'
                 /\ listing_error_caught e' = false))
  /\ safe Sample.os "proj" 0 (recursion_limit Sample.os)
  /\ get_local_file_content Samples.with_binary "proj/a.json"
     = Ok "Binary or non-UTF8 file, cannot display text content.".
Proof.
  assert (Hsafe : safe Samples.locked "proj" 0 (recursion_limit Samples.locked))
    by (apply scannable_safe; vm_compute; reflexivity).
  destruct (caught_failures_recovered_locally Samples.locked "proj")
    as [Hlocal [_ [Hwalk [Hdoc _]]]].
  destruct (caught_failures_recovered_locally Sample.os "nowhere")
    as [_ [_ [_ [_ [Hraise _]]]]].
  destruct (caught_failures_recovered_locally Samples.broken "proj")
    as [_ [_ [_ [_ [_ [Hcall [Hbelow _]]]]]]].
  destruct (caught_failures_recovered_locally Sample.os "proj")
    as [_ [_ [_ [_ [_ [_ [_ [Hreturned _]]]]]]]].
  destruct (caught_failures_recovered_locally Samples.with_binary "proj")
    as [_ [_ [_ [_ [_ [_ [_ [_ Hload]]]]]]]].
  split; [|split; [|split; [|split; [|split; [|split; [|split]]]]]].
  - eapply Hlocal; reflexivity.
  - exact (Hwalk Hsafe).
  - apply (Hdoc Hsafe). discriminate.
  - apply Hraise; [reflexivity | reflexivity | discriminate].
  - apply Hcall; reflexivity.
  - apply (Hbelow "proj/data" 1 Samples.io_error); [|reflexivity|reflexivity].
    apply reaches_down with (names := ["data"; "a.md"]) (entry := "data");
      [reflexivity | now left | reflexivity | reflexivity | constructor].
  - apply (Hreturned
             (String.concat NL ["README.md"; "notes.txt"; "pom.xml"; "[src/]";
                                "    Main.java"; "    [test/]";
                                "        FooTest.java"; ""])
             [(0, "proj/README.md", SOURCE); (0, "proj/pom.xml", BUILD_CONFIG);
              (1, "proj/src/Main.java", SOURCE);
              (2, "proj/src/test/FooTest.java", TEST)]).
    reflexivity.
  - exact (Hload "proj/a.json" _ eq_refl).
Defined.

(** ** C5: the README block *)

(** C5 fails on an empty README.md: the file exists and loads as the empty
    text, [if readme_content:] takes the empty text for no README, and
    the document begins with "README.md: Not found!".  A README.md that
    holds "Hi" gives the block that names it and fences its content. *)
Theorem empty_readme_reported_not_found :
  readme_block Sample.os "proj"
  = Ok ("README.md:" ++ NL ++ FENCE ++ NL ++ "Hi" ++ NL ++ FENCE ++ NL ++ NL)
  /\ path_exists Samples.empty_readme (PosixPath.join "proj" "README.md") = true
  /\ get_local_file_content Samples.empty_readme
                            (PosixPath.join "proj" "README.md") = Ok ""
  /\ readme_block Samples.empty_readme "proj"
     = Ok ("README.md: Not found!" ++ NL ++ NL)
  /\ exists rest,
      retrieve_local_repo_info Samples.empty_readme "proj"
      = Ok ("README.md: Not found!" ++ NL ++ NL ++ rest).
Proof.
  split; [reflexivity|].
  split; [reflexivity|]. split; [reflexivity|]. split; [reflexivity|].
  eexists. vm_compute. reflexivity.
Qed.

(** ** C6: the Content Loader *)

(** C6.  [get_local_file_content] returns the text of a file that reads
    as UTF-8, the fixed placeholder when reading raises
    UnicodeDecodeError, and "Error reading file: " with the description of
    the exception when reading raises anything else; it raises nothing.
    The loop over the records goes on after a file that is not UTF-8: it
    adds the snippet with the placeholder and handles the records that
    follow, and it returns for every list of records with paths that are
    not empty. *)
Theorem content_loader_total (os : OS) :
  (forall path text,
      read_text os path = Ok text -> get_local_file_content os path = Ok text)
  /\ (forall path e,
         read_text os path = Raise e -> exn_type e = UnicodeDecodeError ->
         get_local_file_content os path
         = Ok "Binary or non-UTF8 file, cannot display text content.")
  /\ (forall path e,
         read_text os path = Raise e -> exn_type e <> UnicodeDecodeError ->
         get_local_file_content os path
         = Ok ("Error reading file: " ++ exn_str e))
  /\ (forall path, exists text, get_local_file_content os path = Ok text)
  /\ (forall base indent path kind records e build_section source_section
             test_section,
         read_text os path = Raise e -> exn_type e = UnicodeDecodeError ->
         path <> "" ->
         exists relative_path,
           PosixPath.relpath (getcwd os) path base = Ok relative_path
           /\ collect_sections os base ((indent, path, kind) :: records)
                               build_section source_section test_section
              = let snippet :=
                  make_snippet
                    indent relative_path
                    "Binary or non-UTF8 file, cannot display text content." in
                match kind with
                | BUILD_CONFIG =>
                    collect_sections os base records
                                     (build_section ++ [snippet])%list
                                     source_section test_section
                | TEST =>
                    collect_sections os base records build_section
                                     source_section
                                     (test_section ++ [snippet])%list
                | SOURCE =>
                    collect_sections os base records build_section
                                     (source_section ++ [snippet])%list
                                     test_section
                end)
  /\ (forall base records,
         Forall (fun r => snd (fst r) <> "") records ->
         exists sections,
           collect_sections os base records [] [] [] = Ok sections).
Proof.
  split; [|split; [|split; [|split; [|split]]]].
  - intros path text H. unfold get_local_file_content. now rewrite H.
  - intros path e H He. unfold get_local_file_content. now rewrite H, He.
  - intros path e H He. unfold get_local_file_content. rewrite H.
    destruct (exn_type e); try reflexivity. congruence.
  - apply get_local_file_content_total.
  - intros base indent path kind records e b s t H He Hne.
    destruct (relpath_total (getcwd os) path base Hne) as [rel Hrel].
    exists rel. split; [exact Hrel|].
    cbn [collect_sections]. unfold get_local_file_content.
    rewrite H, He, Hrel. cbn [bind]. reflexivity.
  - intros base records Hne.
    destruct (render_all_total os base records Hne) as [snippets Hs].
    eexists. apply (collect_sections_groups os base records snippets [] [] [] Hs).
Qed.

Lemma content_loader_total_witness :
  get_local_file_content Samples.with_binary "proj/b.json" = Ok "{}"
  /\ get_local_file_content Samples.with_binary "proj/a.json"
     = Ok "Binary or non-UTF8 file, cannot display text content."
  /\ get_local_file_content Samples.with_binary "proj/c.json"
     = Ok "Error reading file: [Errno 2] No such file or directory: 'proj/c.json'"
  /\ exists sections,
      collect_sections Samples.with_binary "proj"
                       [(0, "proj/a.json", SOURCE); (0, "proj/b.json", SOURCE)]
                       [] [] [] = Ok sections.
Proof.
  destruct (content_loader_total Samples.with_binary)
    as [Htext [Hbin [Herr [_ [_ Hloop]]]]].
  split; [|split; [|split]].
  - apply Htext. reflexivity.
  - eapply Hbin; reflexivity.
  - apply (Herr "proj/c.json" (Sample.no_such "proj/c.json"));
      [reflexivity | discriminate].
  - apply Hloop. repeat constructor; discriminate.
Defined.

(** ** C7: the sections of the document *)

Lemma Kind_eqb_eq (a b : Kind) : Kind_eqb a b = true <-> a = b.
Proof. destruct a, b; simpl; split; congruence. Qed.

Lemma render_all_kinds (os : OS) (base : string) (records : list FileRecord) :
  forall snippets,
    render_all os base records = Ok snippets ->
    map fst snippets = map snd records.
Proof.
  induction records as [|r records IH]; intros snippets H; simpl in H.
  - now injection H as <-.
  - unfold bind in H.
    destruct (render_record os base r) as [snippet|e]; [|discriminate].
    destruct (render_all os base records) as [rest|e]; [|discriminate].
    injection H as <-. simpl. f_equal. now apply IH.
Qed.

Lemma group_nil_iff (kind : Kind) (snippets : list (Kind * string)) :
  group kind snippets = [] <-> ~ In kind (map fst snippets).
Proof.
  unfold group. induction snippets as [|[k s] snippets IH]; simpl.
  - tauto.
  - destruct (Kind_eqb k kind) eqn:Hk; simpl.
    + apply Kind_eqb_eq in Hk. split; [discriminate | tauto].
    + assert (k <> kind) by (intros Heq; apply Kind_eqb_eq in Heq; congruence).
      tauto.
Qed.

(** C7.  For every list of records whose snippets render, the loop of
    lines 138-151 returns the snippets of each classification in
    discovery order, and the document is the README block, the tree, and
    the groups Build & Config Files, Source Files, Test Files in this
    order, each as its header followed by its snippets.  A classification
    that no record has contributes the empty string, and one that some
    record has contributes its header and its snippets. *)
Theorem sections_in_fixed_order (os : OS) (base : string)
        (records : list FileRecord) (snippets : list (Kind * string)) :
  render_all os base records = Ok snippets ->
  collect_sections os base records [] [] []
  = Ok (group BUILD_CONFIG snippets, group SOURCE snippets, group TEST snippets)
  /\ (forall readme tree,
         readme_block os base = Ok readme ->
         build_directory_tree_local os base 0 [] = Ok (tree, records) ->
         retrieve_local_repo_info os base
         = Ok (readme ++ "Directory Structure:" ++ NL ++ tree ++ NL
                 ++ section_text (NL ++ "=== Build & Config Files ===" ++ NL)
                                 (group BUILD_CONFIG snippets)
                 ++ section_text (NL ++ "=== Source Files ===" ++ NL)
                                 (group SOURCE snippets)
                 ++ section_text (NL ++ "=== Test Files ===" ++ NL)
                                 (group TEST snippets)))
  /\ (forall kind header,
         (forall r, In r records -> snd r <> kind) ->
         section_text header (group kind snippets) = "")
  /\ (forall kind header,
         (exists r, In r records /\ snd r = kind) ->
         group kind snippets <> []
         /\ section_text header (group kind snippets)
            = header ++ Str.join_all (group kind snippets)).
Proof.
  intros Hs. split; [|split; [|split]].
  - apply (collect_sections_groups os base records snippets [] [] [] Hs).
  - intros readme tree Hr Hw.
    exact (retrieve_local_repo_info_assembles os _ _ _ _ _ Hr Hw Hs).
  - intros kind header Hnone.
    assert (group kind snippets = []) as ->; [|reflexivity].
    apply group_nil_iff. rewrite (render_all_kinds _ _ _ _ Hs), in_map_iff.
    intros [r [Hk Hin]]. exact (Hnone r Hin Hk).
  - intros kind header [r [Hin Hk]].
    assert (group kind snippets <> []) as Hne.
    { intros Hnil. apply group_nil_iff in Hnil. apply Hnil.
      rewrite (render_all_kinds _ _ _ _ Hs), in_map_iff. now exists r. }
    split; [exact Hne|]. now destruct (group kind snippets).
Qed.

Lemma sections_in_fixed_order_witness :
  collect_sections Sample.os "proj"
                   [(1, "proj/src/Main.java", SOURCE);
                    (0, "proj/pom.xml", BUILD_CONFIG);
                    (0, "proj/README.md", SOURCE)] [] [] []
  = Ok ([make_snippet 0 "pom.xml" "<project/>"],
        [make_snippet 1 "src/Main.java" "class Main {}";
         make_snippet 0 "README.md" "Hi"],
        [])
  /\ section_text TEST_HEADER
       (group TEST [(SOURCE, make_snippet 1 "src/Main.java" "class Main {}");
                    (BUILD_CONFIG, make_snippet 0 "pom.xml" "<project/>");
                    (SOURCE, make_snippet 0 "README.md" "Hi")]) = "".
Proof.
  pose proof (sections_in_fixed_order
                Sample.os "proj"
                [(1, "proj/src/Main.java", SOURCE);
                 (0, "proj/pom.xml", BUILD_CONFIG);
                 (0, "proj/README.md", SOURCE)]
                [(SOURCE, make_snippet 1 "src/Main.java" "class Main {}");
                 (BUILD_CONFIG, make_snippet 0 "pom.xml" "<project/>");
                 (SOURCE, make_snippet 0 "README.md" "Hi")]
                eq_refl) as [Hloop [_ [Hnone _]]].
  split; [exact Hloop|].
  apply Hnone. intros r [<- | [<- | [<- | []]]]; discriminate.
Defined.

(** ** C8: entries in lexicographic order, whatever order they are listed in *)

Section Deterministic.

Variables os1 os2 : OS.
Hypothesis same_exists : forall path, path_exists os1 path = path_exists os2 path.
Hypothesis same_text : forall path, read_text os1 path = read_text os2 path.
Hypothesis same_cwd : getcwd os1 = getcwd os2.

Lemma get_local_file_content_same (path : string) :
  get_local_file_content os1 path = get_local_file_content os2 path.
Proof. unfold get_local_file_content. now rewrite same_text. Qed.

Lemma find_readme_same (base : string) (names : list string) :
  forall possible_readme,
    find_readme os1 base names possible_readme
    = find_readme os2 base names possible_readme.
Proof.
  induction names as [|name names IH]; intros possible_readme; simpl;
    [reflexivity|].
  now rewrite same_exists, get_local_file_content_same, IH.
Qed.

Lemma readme_block_same (base : string) :
  readme_block os1 base = readme_block os2 base.
Proof. unfold readme_block. now rewrite find_readme_same. Qed.

Lemma collect_sections_same (base : string) (records : list FileRecord) :
  forall build_section source_section test_section,
    collect_sections os1 base records build_section source_section test_section
    = collect_sections os2 base records build_section source_section
                       test_section.
Proof.
  induction records as [|[[indent path] kind] records IH]; intros b s t;
    simpl; [reflexivity|].
  rewrite get_local_file_content_same, same_cwd. unfold bind.
  destruct (get_local_file_content os2 path); [|reflexivity].
  destruct (PosixPath.relpath (getcwd os2) path base); [|reflexivity].
  destruct kind; apply IH.
Qed.

End Deterministic.

Lemma relisted_same_names (f : list string -> list string) (os : OS) :
  (forall names, Permutation names (f names)) ->
  forall path, same_names (listdir os path) (listdir (relisted f os) path).
Proof.
  intros Hf path. unfold same_names, relisted. cbn [listdir].
  destruct (listdir os path); [apply Hf | reflexivity].
Qed.

(** C8.  The entries of a directory are processed in lexicographic order,
    whatever order [os.listdir] returned them in: of two entries of a
    directory the walk reaches, neither ignored, the line of the one with
    the smaller name stands in the tree before the line of the other, both
    at the beginning of a line, and when both are relevant files their
    records stand in the list in that order.  Sorting yields a sorted
    arrangement of the names, and two runs on systems that hold the same
    files and directories, with listings in any two orders, return the
    same tree and records and the same document. *)
Theorem walk_and_document_deterministic (os1 os2 : OS) (base : string) :
  (forall tree records dir d names e1 e2,
      build_directory_tree_local os1 base 0 [] = Ok (tree, records) ->
      reaches os1 base 0 dir d ->
      listdir os1 dir = Ok names ->
      In e1 names -> In e2 names ->
      String.ltb e1 e2 = true ->
      should_ignore (PosixPath.join dir e1) = false ->
      should_ignore (PosixPath.join dir e2) = false ->
      (exists a b c,
          tree = a ++ entry_line d e1 (isdir os1 (PosixPath.join dir e1))
                   ++ b ++ entry_line d e2 (isdir os1 (PosixPath.join dir e2))
                   ++ c
          /\ at_line_start a
          /\ at_line_start
               (a ++ entry_line d e1 (isdir os1 (PosixPath.join dir e1)) ++ b))
      /\ (forall k1 k2,
             isdir os1 (PosixPath.join dir e1) = false ->
             isdir os1 (PosixPath.join dir e2) = false ->
             classify e1 (PosixPath.join dir e1) = Some k1 ->
             classify e2 (PosixPath.join dir e2) = Some k2 ->
             exists l1 l2 l3,
               records
               = (l1 ++ (d, PosixPath.join dir e1, k1)
                     :: l2 ++ (d, PosixPath.join dir e2, k2) :: l3)%list))
  /\ ((forall path, same_names (listdir os1 path) (listdir os2 path)) ->
      (forall path, isdir os1 path = isdir os2 path) ->
      (forall path, path_exists os1 path = path_exists os2 path) ->
      (forall path, read_text os1 path = read_text os2 path) ->
      getcwd os1 = getcwd os2 ->
      recursion_limit os1 = recursion_limit os2 ->
      build_directory_tree_local os1 base 0 []
      = build_directory_tree_local os2 base 0 []
      /\ retrieve_local_repo_info os1 base = retrieve_local_repo_info os2 base)
  /\ (forall names,
         StronglySorted (fun a b => String.leb a b = true)
                        (StringSort.sort names)
         /\ Permutation names (StringSort.sort names)).
Proof.
  split; [|split].
  - intros tree records dir d names e1 e2 Hw Hreach Hl Hin1 Hin2 Hlt Hig1 Hig2.
    split.
    + exact (sibling_lines_in_order os1 base tree records dir d names e1 e2
               Hw Hreach Hl Hin1 Hin2 Hlt Hig1 Hig2).
    + intros k1 k2 Hd1 Hd2 Hc1 Hc2.
      exact (sibling_records_in_order os1 base tree records dir d names e1 e2
               k1 k2 Hw Hreach Hl Hin1 Hin2 Hlt Hig1 Hig2 Hd1 Hd2 Hc1 Hc2).
  - intros Hl Hd He Ht Hc Hr.
    assert (Hw : build_directory_tree_local os1 base 0 []
                 = build_directory_tree_local os2 base 0 []).
    { unfold build_directory_tree_local. rewrite Hr. apply walk_agree. split.
      - apply same_names_listing, Hl.
      - intros path _. split; [apply Hd | apply same_names_listing, Hl]. }
    split; [exact Hw|].
    unfold retrieve_local_repo_info.
    rewrite (readme_block_same os1 os2 He Ht), Hw. unfold bind.
    destruct (readme_block os2 base) as [readme|e]; [|reflexivity].
    destruct (build_directory_tree_local os2 base 0 []) as [[tree records]|e];
      [|reflexivity].
    now rewrite (collect_sections_same os1 os2 Ht Hc).
  - intros names. split;
      [apply sort_strongly_sorted | apply StringSort.Permuted_sort].
Qed.

Lemma walk_and_document_deterministic_witness :
  (exists a b c,
      String.concat NL ["README.md"; "notes.txt"; "pom.xml"; "[src/]";
                        "    Main.java"; "    [test/]";
                        "        FooTest.java"; ""]
      = a ++ entry_line 0 "pom.xml"
                (isdir Sample.os (PosixPath.join "proj" "pom.xml"))
          ++ b ++ entry_line 0 "src"
                    (isdir Sample.os (PosixPath.join "proj" "src"))
          ++ c
      /\ at_line_start a
      /\ at_line_start
           (a ++ entry_line 0 "pom.xml"
                   (isdir Sample.os (PosixPath.join "proj" "pom.xml")) ++ b))
  /\ (exists l1 l2 l3,
         [(0, "proj/README.md", SOURCE); (0, "proj/pom.xml", BUILD_CONFIG);
          (1, "proj/src/Main.java", SOURCE);
          (2, "proj/src/test/FooTest.java", TEST)]
         = (l1 ++ (0, PosixPath.join "proj" "README.md", SOURCE)
               :: l2 ++ (0, PosixPath.join "proj" "pom.xml", BUILD_CONFIG)
               :: l3)%list)
  /\ build_directory_tree_local Sample.os "proj" 0 []
     = build_directory_tree_local (relisted (@rev string) Sample.os) "proj" 0 []
  /\ retrieve_local_repo_info Sample.os "proj"
     = retrieve_local_repo_info (relisted (@rev string) Sample.os) "proj".
Proof.
  destruct (walk_and_document_deterministic
              Sample.os (relisted (@rev string) Sample.os) "proj")
    as [Horder [Hsame _]].
  split; [|split].
  - refine (proj1 (Horder _ _ "proj" 0
                          ["target"; "src"; "pom.xml"; "README.md"; "notes.txt"]
                          "pom.xml" "src" _ _ _ _ _ _ _ _));
      try reflexivity; [constructor | simpl; tauto | simpl; tauto].
  - refine (proj2 (Horder
                     (String.concat NL ["README.md"; "notes.txt"; "pom.xml";
                                        "[src/]"; "    Main.java";
                                        "    [test/]"; "        FooTest.java";
                                        ""])
                     _ "proj" 0
                     ["target"; "src"; "pom.xml"; "README.md"; "notes.txt"]
                     "README.md" "pom.xml" _ _ _ _ _ _ _ _)
                  SOURCE BUILD_CONFIG _ _ _ _);
      try reflexivity; [constructor | simpl; tauto | simpl; tauto].
  - apply Hsame; try reflexivity.
    apply relisted_same_names, Permutation_rev.
Defined.

(** ** C9: the indentation of a snippet *)

Lemma split_whole_app (sep : ascii) (a b : string) :
  Str.split sep a = [a] -> Str.split sep b = [b] ->
  Str.split sep (a ++ b) = [a ++ b].
Proof.
  intros Ha Hb. induction a as [|c a IH]; [exact Hb|].
  simpl in *. destruct (Ascii.eqb c sep); [discriminate|].
  destruct (Str.split sep a) as [|h t] eqn:Hs; [now destruct (split_not_nil sep a)|].
  injection Ha as -> ->. now rewrite IH.
Qed.

Lemma lines_indent (d : nat) (s : string) :
  lines s = [s] -> lines (Str.times INDENT d ++ s) = [Str.times INDENT d ++ s].
Proof.
  intros Hs. apply split_whole_app; [|exact Hs].
  induction d as [|d IH]; [reflexivity|].
  cbn [Str.times]. now apply split_whole_app.
Qed.

Lemma lines_app_NL (a b : string) :
  lines (a ++ NL ++ b) = (lines a ++ lines b)%list.
Proof. apply split_app_sep. Qed.

(** The lines of a snippet: an empty line, the path line, the opening
    fence, the lines of the content as they are, the closing fence. *)
Lemma make_snippet_lines (d : nat) (relative_path file_content : string) :
  lines (make_snippet d relative_path file_content)
  = ([""] ++ lines (Str.times INDENT d ++ relative_path ++ ":")%string
          ++ [(Str.times INDENT d ++ FENCE)%string]
          ++ lines file_content
          ++ [(Str.times INDENT d ++ FENCE)%string; ""])%list.
Proof.
  unfold make_snippet.
  change (NL ++ Str.times INDENT d ++ relative_path ++ ":" ++ NL
             ++ Str.times INDENT d ++ FENCE ++ NL ++ file_content ++ NL
             ++ Str.times INDENT d ++ FENCE ++ NL)
    with ("" ++ NL ++ Str.times INDENT d ++ relative_path ++ ":" ++ NL
             ++ Str.times INDENT d ++ FENCE ++ NL ++ file_content ++ NL
             ++ Str.times INDENT d ++ FENCE ++ NL ++ "").
  rewrite lines_app_NL.
  replace (Str.times INDENT d ++ relative_path ++ ":" ++ NL
             ++ Str.times INDENT d ++ FENCE ++ NL ++ file_content ++ NL
             ++ Str.times INDENT d ++ FENCE ++ NL ++ "")
    with ((Str.times INDENT d ++ relative_path ++ ":") ++ NL
             ++ (Str.times INDENT d ++ FENCE) ++ NL ++ file_content ++ NL
             ++ (Str.times INDENT d ++ FENCE) ++ NL ++ "")
    by (now rewrite !append_assoc).
  rewrite !lines_app_NL, !(lines_indent d FENCE) by reflexivity.
  reflexivity.
Qed.

Lemma render_all_In (os : OS) (base : string) (records : list FileRecord)
      (r : FileRecord) :
  forall snippets,
    render_all os base records = Ok snippets -> In r records ->
    exists snippet,
      render_record os base r = Ok snippet /\ In (snd r, snippet) snippets.
Proof.
  induction records as [|r' records IH]; intros snippets H Hin; [destruct Hin|].
  simpl in H. unfold bind in H.
  destruct (render_record os base r') as [snippet|e] eqn:Hr; [|discriminate].
  destruct (render_all os base records) as [rest|e]; [|discriminate].
  injection H as <-. destruct Hin as [-> | Hin].
  - exists snippet. split; [exact Hr | now left].
  - destruct (IH rest eq_refl Hin) as [s [Hs Hin']].
    exists s. split; [exact Hs | now right].
Qed.

(** C9 as stated fails: the content of the snippet of src/Main.java, a
    record of depth 1, is not indented. *)
Lemma snippet_content_not_indented :
  exists tree records snippet,
    build_directory_tree_local Sample.os "proj" 0 [] = Ok (tree, records)
    /\ In (1, "proj/src/Main.java", SOURCE) records
    /\ render_record Sample.os "proj" (1, "proj/src/Main.java", SOURCE)
       = Ok snippet
    /\ lines snippet
       = [""; "    src/Main.java:"; "    ```"; "class Main {}"; "    ```"; ""]
    /\ all_indented 1 snippet = false.
Proof.
  do 3 eexists. split; [reflexivity|]. split; [simpl; tauto|].
  split; [reflexivity|]. split; reflexivity.
Qed.

(** C9, amended.  For every record of depth [d] that the walk returns, the
    path of the record is an entry joined to a directory the walk reached
    at depth [d], the tree has the line of that entry indented by [d] indent
    units of four spaces, and the snippet of the record is an empty line,
    the relative path followed by a colon and indented by [d] units, the
    opening fence indented by [d] units, the loaded content as it is, not
    indented, and the closing fence indented by [d] units; the snippet
    stands in the group of the classification of the record. *)
Theorem snippet_fences_indented_like_tree (os : OS) (base tree : string)
        (records : list FileRecord) :
  build_directory_tree_local os base 0 [] = Ok (tree, records) ->
  forall d path kind,
    In (d, path, kind) records ->
    (exists dir entry,
        visits os base 0 dir d entry
        /\ path = PosixPath.join dir entry
        /\ tree_has_line tree (Str.times INDENT d ++ entry ++ NL))
    /\ (forall file_content relative_path,
           get_local_file_content os path = Ok file_content ->
           PosixPath.relpath (getcwd os) path base = Ok relative_path ->
           render_record os base (d, path, kind)
           = Ok (NL ++ Str.times INDENT d ++ relative_path ++ ":" ++ NL
                    ++ Str.times INDENT d ++ FENCE ++ NL
                    ++ file_content ++ NL
                    ++ Str.times INDENT d ++ FENCE ++ NL)
           /\ lines (make_snippet d relative_path file_content)
              = ([""] ++ lines (Str.times INDENT d ++ relative_path ++ ":")%string
                      ++ [(Str.times INDENT d ++ FENCE)%string]
                      ++ lines file_content
                      ++ [(Str.times INDENT d ++ FENCE)%string; ""])%list
           /\ Str.startswith (Str.times INDENT d ++ relative_path ++ ":")
                             (Str.times INDENT d) = true
           /\ Str.startswith (Str.times INDENT d ++ FENCE)
                             (Str.times INDENT d) = true)
    /\ (forall snippets,
           render_all os base records = Ok snippets ->
           exists snippet,
             render_record os base (d, path, kind) = Ok snippet
             /\ In snippet (group kind snippets))
    /\ (valid_names os -> Str.startswith (getcwd os) "/" = true ->
        exists names,
          length names = S d
          /\ path = PosixPath.join_list base names
          /\ PosixPath.relpath (getcwd os) path base
             = Ok (String.concat "/" names)).
Proof.
  intros Hw d path kind Hin.
  pose proof (walk_returns_visited os _ _ _ _ _ Hw) as Hret.
  split; [|split; [|split]]; cycle 3.
  - intros Hvalid Hcwd.
    destruct Hret as [ls [new [_ [Hr [_ Hn]]]]]. simpl in Hr. subst records.
    apply Hn in Hin.
    destruct Hin as [dir [d' [entry [k [Hv [_ [_ Heq]]]]]]].
    injection Heq as -> -> ->.
    exact (record_relpath os base dir _ entry Hvalid Hcwd Hv).
  - destruct Hret as [ls [new [Ht [Hr [Hl Hn]]]]]. simpl in Hr. subst records.
    apply Hn in Hin.
    destruct Hin as [dir [d' [entry [k [Hv [Hf [_ Heq]]]]]]].
    injection Heq as -> -> ->. exists dir, entry. repeat split; try apply Hv.
    assert (Hret' : walk_returns os base 0 [] (tree, new))
      by (exists ls, new; auto).
    pose proof (visited_line _ _ _ _ _ _ _ _ Hret' Hv) as Hline.
    now rewrite Hf in Hline.
  - intros file_content relative_path Hc Hrel. split; [|split; [|split]].
    + unfold render_record. now rewrite Hc, Hrel.
    + apply make_snippet_lines.
    + apply startswith_app.
    + apply startswith_app.
  - intros snippets Hs.
    destruct (render_all_In os base records _ snippets Hs Hin)
      as [snippet [Hr Hin']].
    exists snippet. split; [exact Hr|]. unfold group.
    apply in_map_iff. exists (kind, snippet). split; [reflexivity|].
    apply filter_In. split; [exact Hin'|]. now apply Kind_eqb_eq.
Qed.

Lemma snippet_fences_indented_like_tree_witness :
  (exists dir entry,
      visits Sample.os "proj" 0 dir 1 entry
      /\ "proj/src/Main.java" = PosixPath.join dir entry
      /\ tree_has_line
           (String.concat NL ["README.md"; "notes.txt"; "pom.xml"; "[src/]";
                              "    Main.java"; "    [test/]";
                              "        FooTest.java"; ""])
           (Str.times INDENT 1 ++ entry ++ NL))
  /\ render_record Sample.os "proj" (1, "proj/src/Main.java", SOURCE)
     = Ok (NL ++ "    src/Main.java:" ++ NL ++ "    ```" ++ NL
              ++ "class Main {}" ++ NL ++ "    ```" ++ NL)
  /\ exists names,
      length names = 2
      /\ "proj/src/Main.java" = PosixPath.join_list "proj" names
      /\ PosixPath.relpath (getcwd Sample.os) "proj/src/Main.java" "proj"
         = Ok (String.concat "/" names).
Proof.
  destruct (snippet_fences_indented_like_tree
              Sample.os "proj" _ _ eq_refl 1 "proj/src/Main.java" SOURCE)
    as [Hline [Hsnippet [_ Hrel]]].
  - simpl. tauto.
  - split; [exact Hline|]. split.
    + apply (Hsnippet "class Main {}" "src/Main.java"); reflexivity.
    + apply Hrel; [apply make_os_valid_names|]; reflexivity.
Defined.

(** ** C10: the segments of the root count *)

Lemma walk_entries_all_ignored (os : OS)
      (recurse : string -> nat -> list FileRecord ->
                 result (string * list FileRecord))
      (base : string) (i : nat) (es : list string) :
  (forall entry, In entry es ->
                 should_ignore (PosixPath.join base entry) = true) ->
  forall t acc, walk_entries os recurse base i es t acc = Ok (t, acc).
Proof.
  induction es as [|entry es IH]; intros H t acc; [reflexivity|].
  cbn [walk_entries]. rewrite (H entry (or_introl eq_refl)).
  apply IH. intros e Hin. apply H. now right.
Qed.

Section BelowTest.

Variable os : OS.

(** [os.listdir] returns names, and a name does not begin with "/". *)
Hypothesis names_relative :
  forall path names entry,
    listdir os path = Ok names -> In entry names ->
    Str.startswith entry "/" = false.

Lemma test_segment_join (a b : string) :
  Str.startswith b "/" = false ->
  (exists seg, In seg (Str.split PosixPath.sep a) /\ Str.lower seg = "test") ->
  exists seg, In seg (Str.split PosixPath.sep (PosixPath.join a b))
              /\ Str.lower seg = "test".
Proof.
  intros Hb [seg [Hin Hl]]. exists seg. split; [|exact Hl].
  apply join_keeps_segments; auto. intros ->. discriminate.
Qed.

Lemma reaches_test_segment (base : string) (i : nat) (dir : string) (d : nat) :
  reaches os base i dir d ->
  (exists seg, In seg (Str.split PosixPath.sep base) /\ Str.lower seg = "test") ->
  exists seg, In seg (Str.split PosixPath.sep dir) /\ Str.lower seg = "test".
Proof.
  induction 1 as [| base i names entry dir d Hl Hin _ _ _ IH]; intros Ht;
    [exact Ht|].
  apply IH, test_segment_join; [|exact Ht].
  exact (names_relative _ _ _ Hl Hin).
Qed.

End BelowTest.

(** C10.  The tests of lines 67 and 88 look at the whole path, the root
    included.  When a segment of the root path is a member of the ignore
    set, every entry of the root is skipped, the walk reaches no directory
    but the root, and, when listing the root raises nothing that is passed
    on, it returns the empty tree and no record.  When a segment of the
    root path is "test" in any case, every entry the walk visits is
    classified, if it is relevant, as BUILD_CONFIG when its name is a
    special build file name and as TEST otherwise; the records of a walk
    that returns are exactly the relevant files visited, with these
    classifications; and the walk returns when every directory it reaches
    lists, or fails in a caught way, within the recursion limit. *)
Theorem root_path_segments_count (os : OS) (base : string) :
  valid_names os ->
  ((exists seg, In seg (Str.split PosixPath.sep base)
                /\ In seg IGNORE_PATTERNS) ->
   (forall names entry,
       listdir os base = Ok names -> In entry names ->
       should_ignore (PosixPath.join base entry) = true)
   /\ (forall dir d, reaches os base 0 dir d -> dir = base /\ d = 0)
   /\ (recursion_limit os <> 0 ->
       (forall e, listdir os base = Raise e -> listing_error_caught e = true) ->
       build_directory_tree_local os base 0 [] = Ok ("", [])))
  /\ ((exists seg, In seg (Str.split PosixPath.sep base)
                   /\ Str.lower seg = "test") ->
      (forall dir d entry,
          visits os base 0 dir d entry ->
          classify entry (PosixPath.join dir entry)
          = if is_relevant entry
            then Some (if Str.mem entry SPECIAL_BUILD_FILES
                       then BUILD_CONFIG else TEST)
            else None)
      /\ (forall tree records,
             build_directory_tree_local os base 0 [] = Ok (tree, records) ->
             forall d path kind,
               In (d, path, kind) records <->
               exists dir entry,
                 visits os base 0 dir d entry
                 /\ isdir os (PosixPath.join dir entry) = false
                 /\ path = PosixPath.join dir entry
                 /\ is_relevant entry = true
                 /\ kind = if Str.mem entry SPECIAL_BUILD_FILES
                           then BUILD_CONFIG else TEST)
      /\ (safe os base 0 (recursion_limit os) ->
          exists tree records,
            build_directory_tree_local os base 0 [] = Ok (tree, records))).
Proof.
  intros Hvalid.
  assert (Hnames : forall path names entry,
             listdir os path = Ok names -> In entry names ->
             Str.startswith entry "/" = false)
    by (intros path names entry Hl Hin;
        apply valid_name_relative; exact (Hvalid _ _ _ Hl Hin)).
  split.
  - intros Hig. apply should_ignore_spec in Hig.
    assert (Hskip : forall names entry,
               listdir os base = Ok names -> In entry names ->
               should_ignore (PosixPath.join base entry) = true).
    { intros names entry Hl Hin. apply should_ignore_join; [|exact Hig].
      exact (Hnames base names entry Hl Hin). }
    split; [exact Hskip|]. split.
    + intros dir d Hreach.
      inversion Hreach as [|? ? names entry ? ? Hl Hin Hno _ _]; subst;
        [now split|].
      rewrite (Hskip _ _ Hl Hin) in Hno. discriminate.
    + intros Hlim Hcaught. unfold build_directory_tree_local.
      destruct (recursion_limit os) as [|frames]; [congruence|].
      cbn [walk]. destruct (listdir os base) as [names | e] eqn:Hl.
      * apply walk_entries_all_ignored.
        intros entry Hin. apply (Hskip names); [reflexivity|].
        now apply sort_In.
      * now rewrite (Hcaught e eq_refl).
  - intros Ht.
    assert (Hclass : forall dir d entry,
               visits os base 0 dir d entry ->
               classify entry (PosixPath.join dir entry)
               = if is_relevant entry
                 then Some (if Str.mem entry SPECIAL_BUILD_FILES
                            then BUILD_CONFIG else TEST)
                 else None).
    { intros dir d entry [Hreach [names [Hl [Hin _]]]].
      pose proof (reaches_test_segment os Hnames _ _ _ _ Hreach Ht) as Hdir.
      apply test_segment_join with (b := entry) in Hdir;
        [|exact (Hnames _ _ _ Hl Hin)].
      apply test_segment_spec in Hdir.
      rewrite classify_spec. unfold classification.
      now rewrite has_test_segment_spec, Hdir. }
    split; [exact Hclass|]. split.
    + intros tree records Hw d path kind.
      apply walk_returns_visited in Hw.
      destruct Hw as [ls [new [_ [Hr [_ Hn]]]]]. simpl in Hr. subst records.
      rewrite Hn. unfold record_of. split.
      * intros [dir [d' [entry [k [Hv [Hf [Hc Heq]]]]]]].
        injection Heq as -> -> ->. exists dir, entry.
        rewrite (Hclass _ _ _ Hv) in Hc.
        destruct (is_relevant entry); [|discriminate].
        injection Hc as <-. auto.
      * intros [dir [entry [Hv [Hf [-> [Hrel ->]]]]]].
        exists dir, d, entry,
          (if Str.mem entry SPECIAL_BUILD_FILES then BUILD_CONFIG else TEST).
        rewrite (Hclass _ _ _ Hv), Hrel. auto.
    + intros Hsafe.
      destruct (walk_total os _ base 0 [] Hsafe) as [[tree records] Hw].
      now exists tree, records.
Qed.

Lemma root_path_segments_count_witness :
  (forall dir d,
      reaches Samples.under_build "build/proj" 0 dir d ->
      dir = "build/proj" /\ d = 0)
  /\ build_directory_tree_local Samples.under_build "build/proj" 0 []
     = Ok ("", [])
  /\ classify "Main.java" (PosixPath.join "lab/Test/proj/src" "Main.java")
     = (if is_relevant "Main.java"
        then Some (if Str.mem "Main.java" SPECIAL_BUILD_FILES
                   then BUILD_CONFIG else TEST)
        else None)
  /\ In (1, "lab/Test/proj/src/Main.java", TEST)
        [(0, "lab/Test/proj/pom.xml", BUILD_CONFIG);
         (1, "lab/Test/proj/src/Main.java", TEST)]
  /\ exists tree records,
      build_directory_tree_local Samples.under_test "lab/Test/proj" 0 []
      = Ok (tree, records).
Proof.
  assert (Hbuild : exists seg, In seg (Str.split PosixPath.sep "build/proj")
                               /\ In seg IGNORE_PATTERNS)
    by (exists "build"; split; simpl; tauto).
  assert (Htest : exists seg, In seg (Str.split PosixPath.sep "lab/Test/proj")
                              /\ Str.lower seg = "test")
    by (exists "Test"; split; [simpl; tauto | reflexivity]).
  assert (Hvisits : visits Samples.under_test "lab/Test/proj" 0
                           "lab/Test/proj/src" 1 "Main.java").
  { split.
    - apply reaches_down with (names := ["src"; "pom.xml"]) (entry := "src");
        [reflexivity | now left | reflexivity | reflexivity | constructor].
    - exists ["Main.java"]. split; [reflexivity|].
      split; [now left | reflexivity]. }
  destruct (root_path_segments_count Samples.under_build "build/proj")
    as [Hign _]; [apply make_os_valid_names; reflexivity|].
  destruct (Hign Hbuild) as [_ [Hroot Hempty]].
  destruct (root_path_segments_count Samples.under_test "lab/Test/proj")
    as [_ Hbelow]; [apply make_os_valid_names; reflexivity|].
  destruct (Hbelow Htest) as [Hclass [Hrecords Hreturns]].
  split; [exact Hroot|]. split; [|split; [|split]].
  - apply Hempty; discriminate.
  - exact (Hclass _ _ _ Hvisits).
  - apply (Hrecords (String.concat NL ["pom.xml"; "[src/]"; "    Main.java";
                                        ""]));
      [reflexivity|].
    exists "lab/Test/proj/src", "Main.java".
    split; [exact Hvisits|]. repeat split; reflexivity.
  - apply Hreturns, scannable_safe. vm_compute. reflexivity.
Defined.

(** * Further properties of the walk and of the assembly *)

(** ** The list of records passed in *)

Lemma walk_entries_frame (os : OS)
      (recurse : string -> nat -> list FileRecord ->
                 result (string * list FileRecord))
      (base : string) (i : nat) :
  (forall path acc,
      recurse path (S i) acc
      = '(t, new) <- recurse path (S i) [] ;; Ok (t, (acc ++ new)%list)) ->
  forall es t acc,
    walk_entries os recurse base i es t acc
    = '(t', new) <- walk_entries os recurse base i es "" [] ;;
      Ok (t ++ t', (acc ++ new)%list).
Proof.
  intros Hrec. induction es as [|entry es IH]; intros t acc.
  - cbn [walk_entries bind]. now rewrite append_nil_r, app_nil_r.
  - cbn [walk_entries].
    destruct (should_ignore (PosixPath.join base entry)); [apply IH|].
    destruct (isdir os (PosixPath.join base entry)).
    + rewrite (Hrec _ acc).
      destruct (recurse (PosixPath.join base entry) (S i) []) as [[sub new]|e];
        cbn [bind]; [|reflexivity].
      rewrite (IH (_ ++ sub) (acc ++ new)%list), (IH (_ ++ sub) ([] ++ new)%list).
      destruct (walk_entries os recurse base i es "" []) as [[t' new']|e];
        cbn [bind]; [|reflexivity].
      cbn [append app]. now rewrite !append_assoc, !app_assoc.
    + destruct (classify entry (PosixPath.join base entry)) as [kind|].
      * rewrite (IH _ (acc ++ _)%list), (IH _ ([] ++ _)%list).
        destruct (walk_entries os recurse base i es "" []) as [[t' new']|e];
          cbn [bind]; [|reflexivity].
        cbn [append app]. now rewrite !append_assoc, <- !app_assoc.
      * rewrite (IH (t ++ _) acc), (IH ("" ++ _) []).
        destruct (walk_entries os recurse base i es "" []) as [[t' new']|e];
          cbn [bind]; [|reflexivity].
        cbn [append app]. now rewrite !append_assoc.
Qed.

Lemma walk_frame (os : OS) (frames : nat) :
  forall base i acc,
    walk os frames base i acc
    = '(t, new) <- walk os frames base i [] ;; Ok (t, (acc ++ new)%list).
Proof.
  induction frames as [|frames IH]; intros base i acc; [reflexivity|].
  cbn [walk]. destruct (listdir os base) as [names|e].
  - rewrite (walk_entries_frame os (walk os frames) base i
               (fun path acc' => IH path (S i) acc') _ "" acc).
    destruct (walk_entries os (walk os frames) base i _ "" []) as [[t new]|e];
      reflexivity.
  - destruct (listing_error_caught e); cbn [bind]; [|reflexivity].
    now rewrite app_nil_r.
Qed.

(** X1.  The records passed in as [file_paths] come back as they are, in
    front of the records the call finds, and neither the tree nor the
    records found, nor the exception raised, depend on them: a call with
    [file_paths] is the call with the empty list, with [file_paths] put in
    front. *)
Theorem file_paths_kept_in_front (os : OS) (base_path : string) (indent : nat)
        (file_paths : list FileRecord) :
  build_directory_tree_local os base_path indent file_paths
  = match build_directory_tree_local os base_path indent [] with
    | Ok (tree_str, found) => Ok (tree_str, (file_paths ++ found)%list)
    | Raise e => Raise e
    end.
Proof.
  unfold build_directory_tree_local. rewrite walk_frame.
  destruct (walk os (recursion_limit os) base_path indent []) as [[t new]|e];
    reflexivity.
Qed.

(** ** What the walk raises *)

(** X2.  When the walk raises an exception, it is a RecursionError, or it
    is the exception that listing a directory the walk reached has raised,
    and not one of the two kinds the walk catches. *)
Theorem walk_raises_listing_error (os : OS) (base_path : string) (e : exn) :
  build_directory_tree_local os base_path 0 [] = Raise e ->
  exn_type e = RecursionError
  \/ exists dir d,
      reaches os base_path 0 dir d
      /\ listdir os dir = Raise e
      /\ exn_type e <> NotADirectoryError
      /\ exn_type e <> PermissionError.
Proof.
  intros H. apply walk_raises in H.
  destruct H as [[H _] | [dir [d [Hr [Hl Hc]]]]]; [now left|].
  right. exists dir, d. repeat split; auto;
    intros Heq; unfold listing_error_caught in Hc; now rewrite Heq in Hc.
Qed.

Lemma walk_raises_listing_error_witness :
  exn_type (Sample.no_such "nowhere") = RecursionError
  \/ exists dir d,
      reaches Sample.os "nowhere" 0 dir d
      /\ listdir Sample.os dir = Raise (Sample.no_such "nowhere")
      /\ exn_type (Sample.no_such "nowhere") <> NotADirectoryError
      /\ exn_type (Sample.no_such "nowhere") <> PermissionError.
Proof.
  apply (walk_raises_listing_error Sample.os "nowhere"). reflexivity.
Defined.

(** ** What the assembly raises *)

Lemma collect_sections_raises (os : OS) (base : string) (e : exn)
      (records : list FileRecord) :
  forall build_section source_section test_section,
    render_all os base records = Raise e ->
    collect_sections os base records build_section source_section test_section
    = Raise e.
Proof.
  induction records as [|[[indent path] kind] records IH]; intros b s t H;
    cbn [render_all render_record collect_sections] in *; [discriminate|].
  unfold bind in *.
  destruct (get_local_file_content os path) as [text|e1]; [|congruence].
  destruct (PosixPath.relpath (getcwd os) path base) as [rel|e2]; [|congruence].
  destruct (render_all os base records) as [rest|e3]; [discriminate|].
  injection H as ->. destruct kind; now apply IH.
Qed.

(** X3.  For a root path that is not empty, the assembly raises an
    exception exactly when the walk raises it: loading the README,
    loading the files and making the paths relative add no failure. *)
Theorem assembly_raises_what_walk_raises (os : OS) (base_path : string)
        (e : exn) :
  base_path <> "" ->
  retrieve_local_repo_info os base_path = Raise e
  <-> build_directory_tree_local os base_path 0 [] = Raise e.
Proof.
  intros Hne. unfold retrieve_local_repo_info.
  destruct (readme_block_total os base_path) as [readme ->]. cbn [bind].
  destruct (build_directory_tree_local os base_path 0 [])
    as [[tree records]|e'] eqn:Hw; cbn [bind];
    [|split; intros H; injection H as ->; reflexivity].
  destruct (render_all_total os base_path records) as [snippets Hs].
  - exact (walk_records_nonempty os _ _ _ Hne Hw).
  - rewrite (collect_sections_groups os base_path records snippets [] [] [] Hs).
    cbn [bind]. split; discriminate.
Qed.

Lemma assembly_raises_what_walk_raises_witness :
  retrieve_local_repo_info Sample.os "nowhere" = Raise (Sample.no_such "nowhere")
  <-> build_directory_tree_local Sample.os "nowhere" 0 []
      = Raise (Sample.no_such "nowhere").
Proof.
  apply assembly_raises_what_walk_raises. discriminate.
Defined.

(** ** A root with nothing to show *)

(** X4.  When the root is an empty directory, or listing it raises
    NotADirectoryError or PermissionError (the root is a file, or may not
    be read), the document is the README block followed by the heading of
    the tree and an empty line: no tree line and no section. *)
Theorem document_of_empty_root (os : OS) (base_path : string) :
  recursion_limit os <> 0 ->
  listdir os base_path = Ok []
  \/ (exists e, listdir os base_path = Raise e
                /\ (exn_type e = NotADirectoryError
                    \/ exn_type e = PermissionError)) ->
  build_directory_tree_local os base_path 0 [] = Ok ("", [])
  /\ exists readme,
      readme_block os base_path = Ok readme
      /\ retrieve_local_repo_info os base_path
         = Ok (readme ++ "Directory Structure:" ++ NL ++ NL).
Proof.
  intros Hlim Hroot.
  assert (Hw : build_directory_tree_local os base_path 0 [] = Ok ("", [])).
  { unfold build_directory_tree_local.
    destruct (recursion_limit os) as [|frames]; [congruence|]. cbn [walk].
    destruct Hroot as [-> | [e [-> He]]]; [reflexivity|].
    unfold listing_error_caught. now destruct He as [-> | ->]. }
  split; [exact Hw|].
  destruct (readme_block_total os base_path) as [readme Hr].
  exists readme. split; [exact Hr|].
  unfold retrieve_local_repo_info. rewrite Hr, Hw. reflexivity.
Qed.

Lemma document_of_empty_root_witness :
  build_directory_tree_local Sample.os "proj/pom.xml" 0 [] = Ok ("", [])
  /\ exists readme,
      readme_block Sample.os "proj/pom.xml" = Ok readme
      /\ retrieve_local_repo_info Sample.os "proj/pom.xml"
         = Ok (readme ++ "Directory Structure:" ++ NL ++ NL).
Proof.
  apply document_of_empty_root; [discriminate|].
  right. eexists. split; [reflexivity | now left].
Defined.

(** ** Which README is shown *)




(** ** Every record is shown *)

Lemma join_all_In (s : string) (l : list string) :
  In s l -> exists before after, Str.join_all l = before ++ s ++ after.
Proof.
  intros Hin. apply in_split in Hin. destruct Hin as [l1 [l2 ->]].
  exists (Str.join_all l1), (Str.join_all l2).
  now rewrite join_all_app, join_all_cons.
Qed.

Lemma section_text_In (header s : string) (l : list string) :
  In s l -> exists before after, section_text header l = before ++ s ++ after.
Proof.
  intros Hin. destruct (join_all_In s l Hin) as [before [after Heq]].
  destruct l as [|x l]; [destruct Hin|].
  exists (header ++ before), after. cbn [section_text].
  now rewrite Heq, append_assoc.
Qed.

(** X6.  When the assembly returns a document, every record of the walk
    has its snippet in it: the snippet made of the depth of the record,
    its path relative to the root and its loaded content stands in the
    document. *)
Theorem every_record_in_document (os : OS) (base_path tree document : string)
        (records : list FileRecord) (d : nat) (path : string) (kind : Kind) :
  retrieve_local_repo_info os base_path = Ok document ->
  build_directory_tree_local os base_path 0 [] = Ok (tree, records) ->
  In (d, path, kind) records ->
  exists relative_path file_content before after,
    PosixPath.relpath (getcwd os) path base_path = Ok relative_path
    /\ get_local_file_content os path = Ok file_content
    /\ document
       = before ++ make_snippet d relative_path file_content ++ after.
Proof.
  intros Hdoc Hw Hin.
  destruct (readme_block_total os base_path) as [readme Hr].
  destruct (render_all os base_path records) as [snippets|e] eqn:Hs.
  - rewrite (retrieve_local_repo_info_assembles os _ _ _ _ _ Hr Hw Hs) in Hdoc.
    injection Hdoc as <-.
    destruct (render_all_In os base_path records _ snippets Hs Hin)
      as [snippet [Hrec Hin']].
    cbn [render_record] in Hrec. unfold bind in Hrec.
    destruct (get_local_file_content os path) as [content|e]; [|discriminate].
    destruct (PosixPath.relpath (getcwd os) path base_path) as [rel|e];
      [|discriminate].
    injection Hrec as <-. exists rel, content.
    assert (Hg : In (make_snippet d rel content) (group kind snippets)).
    { unfold group. apply in_map_iff.
      exists (kind, make_snippet d rel content). split; [reflexivity|].
      apply filter_In. split; [exact Hin' | now apply Kind_eqb_eq]. }
    set (front := readme ++ "Directory Structure:" ++ NL ++ tree ++ NL).
    destruct kind.
    + destruct (section_text_In BUILD_HEADER _ _ Hg) as [b [a Heq]].
      exists (front ++ b),
        (a ++ section_text SOURCE_HEADER (group SOURCE snippets)
           ++ section_text TEST_HEADER (group TEST snippets)).
      repeat split. subst front. rewrite Heq. now rewrite !append_assoc.
    + destruct (section_text_In TEST_HEADER _ _ Hg) as [b [a Heq]].
      exists (front ++ section_text BUILD_HEADER (group BUILD_CONFIG snippets)
                ++ section_text SOURCE_HEADER (group SOURCE snippets) ++ b), a.
      repeat split. subst front. rewrite Heq. now rewrite !append_assoc.
    + destruct (section_text_In SOURCE_HEADER _ _ Hg) as [b [a Heq]].
      exists (front ++ section_text BUILD_HEADER (group BUILD_CONFIG snippets)
                ++ b),
        (a ++ section_text TEST_HEADER (group TEST snippets)).
      repeat split. subst front. rewrite Heq. now rewrite !append_assoc.
  - unfold retrieve_local_repo_info in Hdoc. rewrite Hr, Hw in Hdoc.
    cbn [bind] in Hdoc.
    rewrite (collect_sections_raises os base_path e records [] [] [] Hs) in Hdoc.
    discriminate.
Qed.

Lemma every_record_in_document_witness :
  exists relative_path file_content before after,
    PosixPath.relpath (getcwd Sample.os) "proj/src/test/FooTest.java" "proj"
    = Ok relative_path
    /\ get_local_file_content Sample.os "proj/src/test/FooTest.java"
       = Ok file_content
    /\ match retrieve_local_repo_info Sample.os "proj" with
       | Ok document =>
           document
           = before ++ make_snippet 2 relative_path file_content ++ after
       | Raise _ => False
       end.
Proof.
  destruct (retrieve_local_repo_info Sample.os "proj") as [document|e] eqn:Hdoc;
    [|discriminate].
  apply (every_record_in_document Sample.os "proj" _ document _ 2
           "proj/src/test/FooTest.java" TEST Hdoc eq_refl).
  simpl. tauto.
Defined.

(** ** No file is recorded twice *)

Lemma segments_join (a n : string) :
  valid_name n = true ->
  filter PosixPath.nonempty (Str.split PosixPath.sep (PosixPath.join a n))
  = (filter PosixPath.nonempty (Str.split PosixPath.sep a) ++ [n])%list.
Proof.
  intros Hv. apply valid_name_inv in Hv. destruct Hv as [Hne [_ [_ Hn]]].
  assert (Hnon : PosixPath.nonempty n = true)
    by (unfold PosixPath.nonempty; apply negb_true_iff; now apply String.eqb_neq).
  unfold PosixPath.join. rewrite (not_absolute n Hn).
  destruct (a =? "") eqn:Ha; cbn [orb].
  - apply String.eqb_eq in Ha. subst a. cbn [append Str.split filter].
    rewrite (split_whole _ _ Hn). cbn [filter PosixPath.nonempty].
    fold (PosixPath.nonempty n). now rewrite Hnon.
  - destruct (Str.endswith a "/") eqn:He.
    + apply endswith_inv in He. destruct He as [pre ->].
      rewrite append_assoc. change ("/" ++ n) with (String PosixPath.sep n).
      change "/" with (String PosixPath.sep "").
      rewrite !split_app_sep, !filter_app, (split_whole _ _ Hn).
      cbn [Str.split filter]. rewrite Hnon.
      change (PosixPath.nonempty "") with false. cbn [app].
      now rewrite app_nil_r.
    + change ("/" ++ n) with (String PosixPath.sep n).
      rewrite split_app_sep, filter_app, (split_whole _ _ Hn).
      cbn [filter]. now rewrite Hnon.
Qed.

Lemma segments_join_list (names : list string) :
  Forall (fun n => valid_name n = true) names ->
  forall a,
    filter PosixPath.nonempty
           (Str.split PosixPath.sep (PosixPath.join_list a names))
    = (filter PosixPath.nonempty (Str.split PosixPath.sep a) ++ names)%list.
Proof.
  induction 1 as [|n names Hv _ IH]; intros a.
  - cbn [PosixPath.join_list fold_left]. now rewrite app_nil_r.
  - cbn [PosixPath.join_list fold_left]. unfold PosixPath.join_list in IH.
    rewrite IH, (segments_join _ _ Hv), <- app_assoc. reflexivity.
Qed.

(** The names below a root are read off the path. *)
Lemma join_list_injective (a : string) (names1 names2 : list string) :
  Forall (fun n => valid_name n = true) names1 ->
  Forall (fun n => valid_name n = true) names2 ->
  PosixPath.join_list a names1 = PosixPath.join_list a names2 ->
  names1 = names2.
Proof.
  intros H1 H2 Heq.
  apply (f_equal (fun p => filter PosixPath.nonempty
                                  (Str.split PosixPath.sep p))) in Heq.
  rewrite !segments_join_list in Heq by assumption.
  now apply app_inv_head in Heq.
Qed.

Section RecordedOnce.

Variable os : OS.
Hypothesis names_valid : valid_names os.
Hypothesis names_differ :
  forall path names, listdir os path = Ok names -> NoDup names.

Lemma walk_entries_paths
      (recurse : string -> nat -> list FileRecord ->
                 result (string * list FileRecord))
      (base : string) (i : nat) :
  (forall p acc t recs,
      recurse p (S i) acc = Ok (t, recs) ->
      exists new,
        recs = (acc ++ new)%list
        /\ NoDup (map (fun r : FileRecord => snd (fst r)) new)
        /\ forall r, In r new ->
                     exists e rest,
                       Forall (fun n => valid_name n = true) (e :: rest)
                       /\ snd (fst r) = PosixPath.join_list p (e :: rest)) ->
  forall es,
    Forall (fun n => valid_name n = true) es -> NoDup es ->
    forall t acc t' recs,
      walk_entries os recurse base i es t acc = Ok (t', recs) ->
      exists new,
        recs = (acc ++ new)%list
        /\ NoDup (map (fun r : FileRecord => snd (fst r)) new)
        /\ forall r, In r new ->
                     exists e rest,
                       In e es
                       /\ Forall (fun n => valid_name n = true) (e :: rest)
                       /\ snd (fst r) = PosixPath.join_list base (e :: rest).
Proof.
  intros Hrec. induction es as [|entry es IH]; intros Hvalid Hnodup t acc t' recs H.
  - cbn [walk_entries] in H. injection H as <- <-. exists [].
    rewrite app_nil_r. repeat split; [constructor | intros r []].
  - inversion Hvalid as [|? ? Hentry Hvalid']; subst.
    inversion Hnodup as [|? ? Hnotin Hnodup']; subst.
    assert (Hstep : exists t1 new1,
               walk_entries os recurse base i es t1 (acc ++ new1)%list
               = Ok (t', recs)
               /\ NoDup (map (fun r : FileRecord => snd (fst r)) new1)
               /\ forall r, In r new1 ->
                            exists rest,
                              Forall (fun n => valid_name n = true) rest
                              /\ snd (fst r)
                                 = PosixPath.join_list base (entry :: rest)).
    { cbn [walk_entries] in H.
      destruct (should_ignore (PosixPath.join base entry)).
      - exists t, []. rewrite app_nil_r.
        repeat split; [exact H | constructor | intros r []].
      - destruct (isdir os (PosixPath.join base entry)).
        + destruct (recurse (PosixPath.join base entry) (S i) acc)
            as [[sub fp]|e] eqn:Hcall; cbn [bind] in H; [|discriminate].
          destruct (Hrec _ _ _ _ Hcall) as [new1 [-> [Hnd Hpaths]]].
          eexists _, new1. split; [exact H|]. split; [exact Hnd|].
          intros r Hin. destruct (Hpaths r Hin) as [e [rest [Hall ->]]].
          exists (e :: rest). split; [exact Hall | reflexivity].
        + destruct (classify entry (PosixPath.join base entry)) as [kind|].
          * eexists _, [(i, PosixPath.join base entry, kind)].
            split; [exact H|]. split; [repeat constructor; intros []|].
            intros r [<- | []]. exists []. split; [constructor | reflexivity].
          * eexists _, []. rewrite app_nil_r.
            repeat split; [exact H | constructor | intros r []]. }
    destruct Hstep as [t1 [new1 [H1 [Hnd1 Hpaths1]]]].
    destruct (IH Hvalid' Hnodup' _ _ _ _ H1) as [new2 [-> [Hnd2 Hpaths2]]].
    exists (new1 ++ new2)%list. split; [now rewrite app_assoc|]. split.
    + rewrite map_app. apply NoDup_app; [exact Hnd1 | exact Hnd2 |].
      intros p Hin1 Hin2. apply in_map_iff in Hin1, Hin2.
      destruct Hin1 as [r1 [<- Hr1]]. destruct Hin2 as [r2 [Heq Hr2]].
      destruct (Hpaths1 _ Hr1) as [rest1 [Hall1 Hp1]].
      destruct (Hpaths2 _ Hr2) as [e2 [rest2 [Hin2 [Hall2 Hp2]]]].
      rewrite Hp1, Hp2 in Heq.
      apply join_list_injective in Heq; [|exact Hall2 | now constructor].
      injection Heq as -> _. contradiction.
    + intros r Hin. apply in_app_or in Hin. destruct Hin as [Hin | Hin].
      * destruct (Hpaths1 _ Hin) as [rest [Hall Hp]].
        exists entry, rest. repeat split; [now left | now constructor | exact Hp].
      * destruct (Hpaths2 _ Hin) as [e [rest [Hin' [Hall Hp]]]].
        exists e, rest. repeat split; [now right | exact Hall | exact Hp].
Qed.

Lemma walk_paths (frames : nat) :
  forall base i acc t recs,
    walk os frames base i acc = Ok (t, recs) ->
    exists new,
      recs = (acc ++ new)%list
      /\ NoDup (map (fun r : FileRecord => snd (fst r)) new)
      /\ forall r, In r new ->
                   exists e rest,
                     Forall (fun n => valid_name n = true) (e :: rest)
                     /\ snd (fst r) = PosixPath.join_list base (e :: rest).
Proof.
  induction frames as [|frames IH]; intros base i acc t recs H; cbn [walk] in H;
    [discriminate|].
  destruct (listdir os base) as [names|e] eqn:Hl.
  - apply walk_entries_paths in H.
    + destruct H as [new [-> [Hnd Hpaths]]]. exists new. repeat split; auto.
      intros r Hin. destruct (Hpaths r Hin) as [e [rest [_ Hrest]]].
      now exists e, rest.
    + intros p acc' t0 recs0. apply IH.
    + apply Forall_forall. intros n Hin.
      apply (proj1 (sort_In _ _)) in Hin.
      exact (names_valid _ _ _ Hl Hin).
    + apply Permutation_NoDup with names;
        [apply StringSort.Permuted_sort | exact (names_differ _ _ Hl)].
  - destruct (listing_error_caught e); [|discriminate].
    injection H as <- <-. exists []. rewrite app_nil_r.
    repeat split; [constructor | intros r []].
Qed.

End RecordedOnce.

Lemma make_os_listed (dirs : list (string * list string))
      (files : list (string * string)) (path : string) (names : list string) :
  listdir (Sample.make_os dirs files) path = Ok names -> In (path, names) dirs.
Proof.
  cbn [Sample.make_os listdir].
  destruct (Sample.assoc path dirs) as [ns|] eqn:Ha.
  - intros H. injection H as <-.
    induction dirs as [|[k w] dirs IH]; simpl in *; [discriminate|].
    destruct (String.eqb_spec k path) as [-> | _].
    + injection Ha as ->. now left.
    + right. now apply IH.
  - destruct (Sample.assoc path files); discriminate.
Qed.

(** X7.  When the names of each listing are file names and differ from one
    another, no two records of the walk have the same path: a file is
    recorded, and so shown in the document, once. *)
Theorem no_file_recorded_twice (os : OS) (base_path tree : string)
        (records : list FileRecord) :
  valid_names os ->
  (forall path names, listdir os path = Ok names -> NoDup names) ->
  build_directory_tree_local os base_path 0 [] = Ok (tree, records) ->
  NoDup (map (fun r : FileRecord => snd (fst r)) records).
Proof.
  intros Hvalid Hdiffer Hw.
  destruct (walk_paths os Hvalid Hdiffer _ _ _ _ _ _ Hw) as [new [-> [Hnd _]]].
  exact Hnd.
Qed.

Lemma no_file_recorded_twice_witness :
  NoDup (map (fun r : FileRecord => snd (fst r))
             [(0, "proj/README.md", SOURCE); (0, "proj/pom.xml", BUILD_CONFIG);
              (1, "proj/src/Main.java", SOURCE);
              (2, "proj/src/test/FooTest.java", TEST)]).
Proof.
  apply (no_file_recorded_twice
           Sample.os "proj"
           (String.concat NL ["README.md"; "notes.txt"; "pom.xml"; "[src/]";
                              "    Main.java"; "    [test/]";
                              "        FooTest.java"; ""])).
  - apply make_os_valid_names. reflexivity.
  - intros path names Hl. apply make_os_listed in Hl.
    simpl in Hl. destruct Hl as [H | [H | [H | [H | []]]]];
      injection H as <- <-; repeat constructor; simpl; intuition discriminate.
  - reflexivity.
Defined.

(** ** From the relative path back to the file *)

Lemma join_list_prefix (names : list string) :
  forall name prefix,
    Forall (fun n => valid_name n = true) (name :: names) ->
    PosixPath.join_list (prefix ++ name) names
    = prefix ++ String.concat "/" (name :: names).
Proof.
  induction names as [|n names IH]; intros name prefix Hall; [reflexivity|].
  inversion Hall as [|? ? Hv Hrest]; subst.
  inversion Hrest as [|? ? Hv' _]; subst.
  apply valid_name_inv in Hv. destruct Hv as [Hne [_ [_ Hn]]].
  apply valid_name_inv in Hv'. destruct Hv' as [_ [_ [_ Hn']]].
  cbn [PosixPath.join_list fold_left].
  rewrite (join_not_absolute _ n (not_absolute n Hn')).
  replace (prefix ++ name =? "") with false
    by (symmetry; apply String.eqb_neq; intros H;
        apply append_eq_nil in H; tauto).
  rewrite (endswith_sep_app prefix name Hne), (endswith_sep_whole _ Hn).
  cbn [orb].
  replace ((prefix ++ name) ++ "/" ++ n) with ((prefix ++ name ++ "/") ++ n)
    by (now rewrite !append_assoc).
  fold (PosixPath.join_list ((prefix ++ name ++ "/") ++ n) names).
  rewrite (IH n _ Hrest).
  change (String.concat "/" (name :: n :: names))
    with (name ++ "/" ++ String.concat "/" (n :: names)).
  now rewrite !append_assoc.
Qed.

Lemma concat_names_relative (name : string) (names : list string) :
  valid_name name = true ->
  Str.startswith (String.concat "/" (name :: names)) "/" = false.
Proof.
  intros Hv. apply valid_name_inv in Hv. destruct Hv as [Hne [_ [_ Hn]]].
  destruct name as [|c name]; [congruence|].
  cbn [has_char] in Hn. apply orb_false_iff in Hn. destruct Hn as [Hc _].
  destruct names; cbn [String.concat append]; now rewrite startswith_sep_cons.
Qed.

(** Joining the names one by one is joining them at once. *)
Lemma join_concat_names (base name : string) (names : list string) :
  Forall (fun n => valid_name n = true) (name :: names) ->
  PosixPath.join base (String.concat "/" (name :: names))
  = PosixPath.join_list base (name :: names).
Proof.
  intros Hall. inversion Hall as [|? ? Hv _]; subst.
  cbn [PosixPath.join_list fold_left].
  fold (PosixPath.join_list (PosixPath.join base name) names).
  rewrite (join_not_absolute base _ (concat_names_relative _ names Hv)).
  rewrite (join_not_absolute base name (valid_name_relative _ Hv)).
  destruct ((base =? "") || Str.endswith base "/").
  - now rewrite join_list_prefix.
  - replace (base ++ "/" ++ name) with ((base ++ "/") ++ name)
      by (now rewrite append_assoc).
    rewrite join_list_prefix by assumption. now rewrite append_assoc.
Qed.

(** X8.  When the listings hold file names and the working directory is
    absolute, the relative path that [os.path.relpath] gives for a record
    leads back to the file: joined to the root, it is the path of the
    record. *)
Theorem relative_path_leads_back (os : OS) (base_path tree : string)
        (records : list FileRecord) (d : nat) (path : string) (kind : Kind) :
  valid_names os ->
  Str.startswith (getcwd os) "/" = true ->
  build_directory_tree_local os base_path 0 [] = Ok (tree, records) ->
  In (d, path, kind) records ->
  exists relative_path,
    PosixPath.relpath (getcwd os) path base_path = Ok relative_path
    /\ PosixPath.join base_path relative_path = path.
Proof.
  intros Hvalid Hcwd Hw Hin.
  apply walk_returns_visited in Hw.
  destruct Hw as [ls [new [_ [Hr [_ Hn]]]]]. simpl in Hr. subst records.
  apply Hn in Hin.
  destruct Hin as [dir [d' [entry [k [[Hreach [listed [Hl [Hin _]]]]
                                       [_ [_ Heq]]]]]]].
  injection Heq as -> -> ->.
  destruct (reaches_names os _ _ _ _ Hvalid Hreach) as [names [Hall [_ ->]]].
  pose proof (Hvalid _ _ _ Hl Hin) as Hentry.
  assert (Hall' : Forall (fun n => valid_name n = true) (names ++ [entry]))
    by (apply Forall_app; split; [exact Hall | now constructor]).
  assert (Hjoin : PosixPath.join (PosixPath.join_list base_path names) entry
                  = PosixPath.join_list base_path (names ++ [entry]))
    by (unfold PosixPath.join_list; now rewrite fold_left_app).
  rewrite Hjoin.
  destruct (names ++ [entry])%list as [|n rest] eqn:Hnames;
    [now destruct names|].
  exists (String.concat "/" (n :: rest)). split.
  - rewrite (relpath_join_list _ _ _ _ Hcwd Hall').
    now rewrite (join_list_concat _ _ Hall').
  - now apply join_concat_names.
Qed.

Lemma relative_path_leads_back_witness :
  exists relative_path,
    PosixPath.relpath (getcwd Sample.os) "proj/src/test/FooTest.java" "proj"
    = Ok relative_path
    /\ PosixPath.join "proj" relative_path = "proj/src/test/FooTest.java".
Proof.
  apply (relative_path_leads_back
           Sample.os "proj"
           (String.concat NL ["README.md"; "notes.txt"; "pom.xml"; "[src/]";
                              "    Main.java"; "    [test/]";
                              "        FooTest.java"; ""])
           [(0, "proj/README.md", SOURCE); (0, "proj/pom.xml", BUILD_CONFIG);
            (1, "proj/src/Main.java", SOURCE);
            (2, "proj/src/test/FooTest.java", TEST)]
           2 _ TEST).
  - apply make_os_valid_names. reflexivity.
  - reflexivity.
  - reflexivity.
  - simpl. tauto.
Defined.

(** ** The order of the records *)

(** X9.  Two relevant files of one directory are recorded in the
    lexicographic order of their names: the record of the file with the
    smaller name stands before the record of the other in the list the
    walk returns, and so do their snippets within a section. *)
Theorem siblings_recorded_in_order (os : OS) (base_path tree : string)
        (records : list FileRecord) (dir : string) (d : nat)
        (names : list string) (e1 e2 : string) (k1 k2 : Kind) :
  build_directory_tree_local os base_path 0 [] = Ok (tree, records) ->
  reaches os base_path 0 dir d ->
  listdir os dir = Ok names ->
  In e1 names -> In e2 names ->
  String.ltb e1 e2 = true ->
  should_ignore (PosixPath.join dir e1) = false ->
  should_ignore (PosixPath.join dir e2) = false ->
  isdir os (PosixPath.join dir e1) = false ->
  isdir os (PosixPath.join dir e2) = false ->
  classify e1 (PosixPath.join dir e1) = Some k1 ->
  classify e2 (PosixPath.join dir e2) = Some k2 ->
  exists l1 l2 l3,
    records
    = (l1 ++ (d, PosixPath.join dir e1, k1)
          :: l2 ++ (d, PosixPath.join dir e2, k2) :: l3)%list.
Proof.
  intros Hw Hreach Hl Hin1 Hin2 Hlt Hig1 Hig2 Hd1 Hd2 Hc1 Hc2.
  destruct (walk_reaches_prefix os _ _ _ _ Hreach _ _ _ _ Hw)
    as [frames [acc [t [recs [later [Hdir ->]]]]]].
  destruct frames as [|frames]; [discriminate|].
  cbn [walk] in Hdir. rewrite Hl in Hdir.
  destruct (sorted_before (StringSort.sort names) e1 e2)
    as [s1 [s2 [s3 Hsplit]]];
    [apply sort_strongly_sorted | now apply sort_In | now apply sort_In
     | exact Hlt |].
  rewrite Hsplit, walk_entries_app in Hdir.
  destruct (walk_entries os (walk os frames) dir d s1 "" acc)
    as [[t1 a1]|e]; cbn [bind] in Hdir; [|discriminate].
  cbn [walk_entries] in Hdir. rewrite Hig1, Hd1, Hc1 in Hdir.
  rewrite walk_entries_app in Hdir.
  destruct (walk_entries os (walk os frames) dir d s2 _ _)
    as [[t2 a2]|e] eqn:H2; cbn [bind] in Hdir; [|discriminate].
  destruct (walk_entries_extends _ _ _ _ _ _ _ _ H2) as [n2 Hr2].
  simpl in Hr2. subst a2.
  cbn [walk_entries] in Hdir. rewrite Hig2, Hd2, Hc2 in Hdir.
  destruct (walk_entries_extends _ _ _ _ _ _ _ _ Hdir) as [n3 Hr3].
  simpl in Hr3. subst recs.
  exists a1, n2, (n3 ++ later)%list.
  rewrite <- !app_assoc. reflexivity.
Qed.

Lemma siblings_recorded_in_order_witness :
  exists l1 l2 l3,
    [(0, "proj/README.md", SOURCE); (0, "proj/pom.xml", BUILD_CONFIG);
     (1, "proj/src/Main.java", SOURCE); (2, "proj/src/test/FooTest.java", TEST)]
    = (l1 ++ (0, PosixPath.join "proj" "README.md", SOURCE)
          :: l2 ++ (0, PosixPath.join "proj" "pom.xml", BUILD_CONFIG) :: l3)%list.
Proof.
  apply (siblings_recorded_in_order
           Sample.os "proj"
           (String.concat NL ["README.md"; "notes.txt"; "pom.xml"; "[src/]";
                              "    Main.java"; "    [test/]";
                              "        FooTest.java"; ""])
           _ "proj" 0 ["target"; "src"; "pom.xml"; "README.md"; "notes.txt"]);
    try reflexivity.
  - constructor.
  - simpl. tauto.
  - simpl. tauto.
Defined.

(** ** The lines of the tree *)

(** X10.  The tree the walk returns is the lines of the entries it visits,
    one after the other, and nothing else: each line of the tree is the
    line of an entry that is listed in a directory the walk reached and is
    not ignored, at the depth of that directory, and each such entry has
    its line. *)
Theorem tree_is_lines_of_visited (os : OS) (base_path tree : string)
        (records : list FileRecord) :
  build_directory_tree_local os base_path 0 [] = Ok (tree, records) ->
  exists lines,
    tree = Str.join_all lines
    /\ forall l,
        In l lines <->
        exists dir d entry,
          visits os base_path 0 dir d entry
          /\ l = if isdir os (PosixPath.join dir entry)
                 then Str.times INDENT d ++ "[" ++ entry ++ "/]" ++ NL
                 else Str.times INDENT d ++ entry ++ NL.
Proof.
  intros Hw. apply walk_returns_visited in Hw.
  destruct Hw as [lines [new [Ht [_ [Hl _]]]]].
  exists lines. split; [exact Ht|]. exact Hl.
Qed.

Lemma tree_is_lines_of_visited_witness :
  exists lines,
    String.concat NL ["README.md"; "notes.txt"; "pom.xml"; "[src/]";
                      "    Main.java"; "    [test/]"; "        FooTest.java"; ""]
    = Str.join_all lines
    /\ forall l,
        In l lines <->
        exists dir d entry,
          visits Sample.os "proj" 0 dir d entry
          /\ l = if isdir Sample.os (PosixPath.join dir entry)
                 then Str.times INDENT d ++ "[" ++ entry ++ "/]" ++ NL
                 else Str.times INDENT d ++ entry ++ NL.
Proof.
  apply (tree_is_lines_of_visited
           Sample.os "proj" _
           [(0, "proj/README.md", SOURCE); (0, "proj/pom.xml", BUILD_CONFIG);
            (1, "proj/src/Main.java", SOURCE);
            (2, "proj/src/test/FooTest.java", TEST)]).
  reflexivity.
Defined.

(** ** The indent a walk begins with *)

Lemma times_add (s : string) (k i : nat) :
  Str.times s (k + i) = Str.times s k ++ Str.times s i.
Proof.
  induction k as [|k IH]; [reflexivity|].
  cbn [Nat.add Str.times]. now rewrite IH, append_assoc.
Qed.

Lemma join_all_snoc (lines : list string) (l : string) :
  Str.join_all (lines ++ [l]) = Str.join_all lines ++ l.
Proof.
  rewrite join_all_app, join_all_cons. change (Str.join_all []) with "".
  now rewrite append_nil_r.
Qed.

Section Shift.

Variable os : OS.
Variable k : nat.

Lemma entry_line_shift (i : nat) (entry : string) (is_dir : bool) :
  entry_line (k + i) entry is_dir
  = Str.times INDENT k ++ entry_line i entry is_dir.
Proof.
  unfold entry_line. rewrite times_add.
  destruct is_dir; now rewrite append_assoc.
Qed.

Lemma shifted_snoc (before : list string) (i : nat) (entry : string)
      (is_dir : bool) :
  Str.join_all (map (append (Str.times INDENT k)) before)
    ++ entry_line (k + i) entry is_dir
  = Str.join_all (map (append (Str.times INDENT k))
                      (before ++ [entry_line i entry is_dir])).
Proof.
  rewrite map_app. cbn [map]. now rewrite join_all_snoc, entry_line_shift.
Qed.

Lemma walk_entries_shift
      (recurse1 recurse2 : string -> nat -> list FileRecord ->
                           result (string * list FileRecord))
      (base : string) (i : nat) :
  (forall p acc,
      match recurse1 p (S i) acc with
      | Ok (t, recs) =>
          exists lines,
            t = Str.join_all lines
            /\ (forall l, In l lines ->
                          exists d entry is_dir, l = entry_line d entry is_dir)
            /\ recurse2 p (S (k + i))
                        (map (fun r : FileRecord =>
                                (k + fst (fst r), snd (fst r), snd r)) acc)
               = Ok (Str.join_all (map (append (Str.times INDENT k)) lines),
                     map (fun r : FileRecord =>
                            (k + fst (fst r), snd (fst r), snd r)) recs)
      | Raise e =>
          recurse2 p (S (k + i))
                   (map (fun r : FileRecord =>
                           (k + fst (fst r), snd (fst r), snd r)) acc)
          = Raise e
      end) ->
  forall es before acc tree_str shifted_str shifted_acc,
    (forall l, In l before ->
               exists d entry is_dir, l = entry_line d entry is_dir) ->
    tree_str = Str.join_all before ->
    shifted_str = Str.join_all (map (append (Str.times INDENT k)) before) ->
    shifted_acc = map (fun r : FileRecord =>
                         (k + fst (fst r), snd (fst r), snd r)) acc ->
    match walk_entries os recurse1 base i es tree_str acc with
    | Ok (t, recs) =>
        exists lines,
          t = Str.join_all lines
          /\ (forall l, In l lines ->
                        exists d entry is_dir, l = entry_line d entry is_dir)
          /\ walk_entries os recurse2 base (k + i) es shifted_str shifted_acc
             = Ok (Str.join_all (map (append (Str.times INDENT k)) lines),
                   map (fun r : FileRecord =>
                          (k + fst (fst r), snd (fst r), snd r)) recs)
    | Raise e =>
        walk_entries os recurse2 base (k + i) es shifted_str shifted_acc
        = Raise e
    end.
Proof.
  intros Hrec. induction es as [|entry es IH];
    intros before acc tree_str shifted_str shifted_acc Hbefore Ht Hs Ha.
  - cbn [walk_entries]. exists before. subst. auto.
  - cbn [walk_entries].
    destruct (should_ignore (PosixPath.join base entry));
      [exact (IH _ _ _ _ _ Hbefore Ht Hs Ha)|].
    destruct (isdir os (PosixPath.join base entry)).
    + specialize (Hrec (PosixPath.join base entry) acc). rewrite Ha.
      destruct (recurse1 (PosixPath.join base entry) (S i) acc)
        as [[sub fp]|e]; cbn [bind].
      * destruct Hrec as [sublines [Hsub_eq [Hsub ->]]]. cbn [bind].
        apply (IH ((before ++ [entry_line i entry true]) ++ sublines)%list).
        -- intros l Hin. apply in_app_or in Hin. destruct Hin as [Hin | Hin];
             [|now apply Hsub].
           apply in_app_or in Hin. destruct Hin as [Hin | [<- | []]];
             [now apply Hbefore | now exists i, entry, true].
        -- rewrite join_all_app, join_all_snoc, Ht, Hsub_eq. reflexivity.
        -- rewrite map_app, join_all_app, <- shifted_snoc, Hs. reflexivity.
        -- reflexivity.
      * now rewrite Hrec.
    + assert (Hb : forall l,
                 In l (before ++ [entry_line i entry false])%list ->
                 exists d e' is_dir, l = entry_line d e' is_dir).
      { intros l Hin. apply in_app_or in Hin. destruct Hin as [Hin | [<- | []]];
          [now apply Hbefore | now exists i, entry, false]. }
      assert (Ht' : tree_str ++ Str.times INDENT i ++ entry ++ NL
                    = Str.join_all (before ++ [entry_line i entry false]))
        by (rewrite join_all_snoc, Ht; reflexivity).
      assert (Hs' : shifted_str ++ Str.times INDENT (k + i) ++ entry ++ NL
                    = Str.join_all (map (append (Str.times INDENT k))
                                        (before ++ [entry_line i entry false])))
        by (rewrite <- shifted_snoc, Hs; reflexivity).
      destruct (classify entry (PosixPath.join base entry)) as [kind|].
      * apply (IH _ _ _ _ _ Hb Ht' Hs'). rewrite Ha, map_app. reflexivity.
      * exact (IH _ _ _ _ _ Hb Ht' Hs' Ha).
Qed.

Lemma walk_shift (frames : nat) :
  forall base i acc,
    match walk os frames base i acc with
    | Ok (t, recs) =>
        exists lines,
          t = Str.join_all lines
          /\ (forall l, In l lines ->
                        exists d entry is_dir, l = entry_line d entry is_dir)
          /\ walk os frames base (k + i)
                  (map (fun r : FileRecord =>
                          (k + fst (fst r), snd (fst r), snd r)) acc)
             = Ok (Str.join_all (map (append (Str.times INDENT k)) lines),
                   map (fun r : FileRecord =>
                          (k + fst (fst r), snd (fst r), snd r)) recs)
    | Raise e =>
        walk os frames base (k + i)
             (map (fun r : FileRecord =>
                     (k + fst (fst r), snd (fst r), snd r)) acc)
        = Raise e
    end.
Proof.
  induction frames as [|frames IH]; intros base i acc; [reflexivity|].
  cbn [walk]. destruct (listdir os base) as [names|e].
  - apply (walk_entries_shift (walk os frames) (walk os frames) base i)
      with (before := []); try reflexivity.
    + intros p acc'. specialize (IH p (S i) acc').
      now rewrite Nat.add_succ_r in IH.
    + intros l [].
  - destruct (listing_error_caught e); [|reflexivity].
    exists []. repeat split. intros l [].
Qed.

End Shift.

(** X11.  The indent a walk begins with only shifts what it returns: begun
    with [indent] in place of 0, the walk returns the same lines, each
    with [indent] more indent units in front, and the same records in the
    same order, each with [indent] added to its depth; and it raises what
    the walk begun with 0 raises. *)
Theorem indent_only_shifts (os : OS) (base_path : string) (indent : nat) :
  match build_directory_tree_local os base_path 0 [] with
  | Ok (tree, records) =>
      exists lines,
        tree = Str.join_all lines
        /\ (forall l, In l lines ->
                      exists d entry is_dir, l = entry_line d entry is_dir)
        /\ build_directory_tree_local os base_path indent []
           = Ok (Str.join_all (map (append (Str.times INDENT indent)) lines),
                 map (fun r : FileRecord =>
                        (indent + fst (fst r), snd (fst r), snd r)) records)
  | Raise e => build_directory_tree_local os base_path indent [] = Raise e
  end.
Proof.
  unfold build_directory_tree_local.
  pose proof (walk_shift os indent (recursion_limit os) base_path 0 []) as H.
  rewrite Nat.add_0_r in H. exact H.
Qed.

(** ** Every snippet goes to one section *)

Lemma collect_sections_count (os : OS) (base : string)
      (records : list FileRecord) :
  forall b s t b' s' t',
    collect_sections os base records b s t = Ok (b', s', t') ->
    length b' + length s' + length t'
    = length b + length s + length t + length records.
Proof.
  induction records as [|[[indent path] kind] records IH];
    intros b s t b' s' t' H; cbn [collect_sections] in H.
  - injection H as <- <- <-. simpl. lia.
  - unfold bind in H.
    destruct (get_local_file_content os path) as [text|e]; [|discriminate].
    destruct (PosixPath.relpath (getcwd os) path base) as [rel|e];
      [|discriminate].
    destruct kind; apply IH in H; rewrite H, length_app; simpl; lia.
Qed.

(** X12.  The loop over the records puts the snippet of each record into
    exactly one of the three sections: when it returns, the sections hold
    together as many snippets as there are records, and a section holds as
    many snippets as there are records of its classification. *)
Theorem sections_partition_records (os : OS) (base_path : string)
        (records : list FileRecord)
        (build_section source_section test_section : list string) :
  collect_sections os base_path records [] [] []
  = Ok (build_section, source_section, test_section) ->
  length build_section + length source_section + length test_section
  = length records
  /\ length build_section
     = length (filter (fun r : FileRecord => Kind_eqb (snd r) BUILD_CONFIG)
                      records)
  /\ length source_section
     = length (filter (fun r : FileRecord => Kind_eqb (snd r) SOURCE) records)
  /\ length test_section
     = length (filter (fun r : FileRecord => Kind_eqb (snd r) TEST) records).
Proof.
  intros H. split; [exact (collect_sections_count os _ _ _ _ _ _ _ _ H)|].
  destruct (render_all os base_path records) as [snippets|e] eqn:Hs.
  - rewrite (collect_sections_groups os base_path records snippets [] [] [] Hs)
      in H.
    injection H as <- <- <-.
    assert (Hg : forall kind,
               length (group kind snippets)
               = length (filter (fun r : FileRecord => Kind_eqb (snd r) kind)
                                records)).
    { intros kind. unfold group. rewrite length_map.
      pose proof (render_all_kinds os base_path records snippets Hs) as Hk.
      clear Hs. revert snippets Hk.
      induction records as [|r records IH]; intros [|[k sn] snippets] Hk;
        try discriminate; [reflexivity|].
      simpl in Hk. injection Hk as Hk1 Hk2. cbn [filter fst].
      rewrite <- Hk1. destruct (Kind_eqb k kind); cbn [length];
        now rewrite (IH _ Hk2). }
    cbn [app]. now rewrite !Hg.
  - rewrite (collect_sections_raises os base_path e records [] [] [] Hs) in H.
    discriminate.
Qed.

Lemma sections_partition_records_witness :
  length [make_snippet 0 "pom.xml" "<project/>"]
  + length [make_snippet 1 "src/Main.java" "class Main {}";
            make_snippet 0 "README.md" "Hi"]
  + length (@nil string)
  = length [(1, "proj/src/Main.java", SOURCE); (0, "proj/pom.xml", BUILD_CONFIG);
            (0, "proj/README.md", SOURCE)].
Proof.
  apply (sections_partition_records
           Sample.os "proj"
           [(1, "proj/src/Main.java", SOURCE); (0, "proj/pom.xml", BUILD_CONFIG);
            (0, "proj/README.md", SOURCE)]).
  reflexivity.
Defined.
